(** * logpilot: the archived-log endpoints of [charts/logpilot/src/main.py]

    A shallow embedding of the request handlers that read and purge the
    log archive ([get_archived_pods], [get_archived_logs],
    [get_log_dir_stats], [purge_previous_logs]) over a model of the
    directory tree they walk, together with the properties the design
    document states about them.

    Conventions.
    - Text is [string].  A [str] whose characters are all in the 7-bit
      range ([str.isascii()], here [Py.isascii]) is the string of those
      characters.  The character classes of [str.strip], [str.lower],
      [int] and of [\d] and [\s] in the timestamp pattern are given on that
      range, where they are those of CPython; a statement that depends on
      the class of a character of some text assumes [Py.isascii] of that
      text.  Text that is only compared, joined, sliced by a fixed suffix or
      split at [/] (names of pods, containers and files) is not restricted.
    - The file system is a tree of regular files and directories rooted at
      [/]; there are no symbolic links and no permission failures.  An
      entry list is kept in the order [os.scandir] reports it.
    - Time stamps are integers (seconds); sizes are integers (bytes).
    - A handler is a function from the process configuration, the request
      and the state of the world to the pair [(body, status)] it returns;
      [body] is the dictionary handed to [jsonify].  The API-key wrapper
      [require_api_key] either answers by itself or calls the handler
      unchanged; it is modelled on its own, applied to the handler's
      answer. *)

From Stdlib Require Import ZArith QArith Ascii String.
From stdpp Require Import base option list gmap sets strings.
From stdpp Require Import sorting.

Local Open Scope Z_scope.

(** ** Python's [str] methods *)

Module Py.

(** [s.isascii()]: every character is below 128. *)
Fixpoint isascii (s : string) : bool :=
  match s with
  | "" => true
  | String c s' => (nat_of_ascii c <? 128)%nat && isascii s'
  end.

(** [s.startswith(prefix)] *)
Fixpoint startswith (s prefix : string) : bool :=
  match prefix, s with
  | "", _ => true
  | String p prefix', String c s' => bool_decide (c = p) && startswith s' prefix'
  | String _ _, "" => false
  end.

(** [s.endswith(suffix)] *)
Fixpoint endswith (s suffix : string) : bool :=
  bool_decide (s = suffix)
  || match s with
     | "" => false
     | String _ s' => endswith s' suffix
     end.

(** [sub in s] *)
Fixpoint contains (s sub : string) : bool :=
  startswith s sub
  || match s with
     | "" => false
     | String _ s' => contains s' sub
     end.

(** [s[:-k]] for a positive literal [k] *)
Definition drop_last (k : nat) (s : string) : string :=
  String.substring 0 (String.length s - k) s.

(** [s.split(sep)] for a one-character separator *)
Fixpoint split (sep : ascii) (s : string) : list string :=
  match s with
  | "" => [""]
  | String c s' =>
      if decide (c = sep) then "" :: split sep s'
      else match split sep s' with
           | w :: ws => String c w :: ws
           | [] => [String c ""]
           end
  end.

(** [s.split(sep, 1)] when [sep in s]: the text before and after the first
    separator; [None] when [s] has no separator. *)
Fixpoint split_once (sep : ascii) (s : string) : option (string * string) :=
  match s with
  | "" => None
  | String c s' =>
      if decide (c = sep) then Some ("", s')
      else '(a, b) ← split_once sep s'; Some (String c a, b)
  end.

(** [sep.join(parts)] *)
Fixpoint join (sep : string) (parts : list string) : string :=
  match parts with
  | [] => ""
  | [p] => p
  | p :: ps => p +:+ sep +:+ join sep ps
  end.

(** The characters of the 7-bit range that [str.strip] removes and [\s]
    matches: tab to carriage return, the four separators and the space. *)
Definition isspace (c : ascii) : bool :=
  let n := nat_of_ascii c in
  ((9 <=? n) && (n <=? 13) || (28 <=? n) && (n <=? 32))%nat.

Fixpoint lstrip (s : string) : string :=
  match s with
  | "" => ""
  | String c s' => if isspace c then lstrip s' else s
  end.

(** [rstrip] keeps a character when it is not blank or when something
    that is kept follows it. *)
Fixpoint rstrip (s : string) : string :=
  match s with
  | "" => ""
  | String c s' =>
      match rstrip s' with
      | "" => if isspace c then "" else String c ""
      | r => String c r
      end
  end.

Definition strip (s : string) : string := rstrip (lstrip s).

(** [str.lower] on the 7-bit range: the letters [A] to [Z] are folded. *)
Definition lower_char (c : ascii) : ascii :=
  let n := nat_of_ascii c in
  if ((65 <=? n) && (n <=? 90))%nat then ascii_of_nat (n + 32) else c.

Fixpoint lower (s : string) : string :=
  match s with
  | "" => ""
  | String c s' => String (lower_char c) (lower s')
  end.

(** The characters of the 7-bit range that [\d] matches and [int] reads as
    digits. *)
Definition isdigit (c : ascii) : bool :=
  let n := nat_of_ascii c in ((48 <=? n) && (n <=? 57))%nat.

Definition digit_value (c : ascii) : Z := Z.of_nat (nat_of_ascii c) - 48.

(** The characters of the 7-bit range that [int] skips around a literal. *)
Definition isblank (c : ascii) : bool :=
  let n := nat_of_ascii c in
  ((9 <=? n) && (n <=? 13) || (n =? 32))%nat.

Fixpoint lskip (s : string) : string :=
  match s with
  | "" => ""
  | String c s' => if isblank c then lskip s' else s
  end.

Fixpoint rskip (s : string) : string :=
  match s with
  | "" => ""
  | String c s' =>
      match rskip s' with
      | "" => if isblank c then "" else String c ""
      | r => String c r
      end
  end.

(** Decimal digits with single underscores between them; [after_digit]
    says that the previous character was a digit. *)
Fixpoint digits (acc : Z) (after_digit : bool) (s : string) : option Z :=
  match s with
  | "" => if after_digit then Some acc else None
  | String c s' =>
      if isdigit c then digits (10 * acc + digit_value c) true s'
      else if bool_decide (c = "_"%char) && after_digit then
        match s' with
        | String d _ => if isdigit d then digits acc false s' else None
        | "" => None
        end
      else None
  end.

(** [sys.get_int_max_str_digits()], at its default. *)
Definition int_max_str_digits : nat := 4300.

(** The number of digits of a literal; underscores, sign and blanks do not
    count. *)
Fixpoint count_digits (s : string) : nat :=
  match s with
  | "" => 0
  | String c s' => ((if isdigit c then 1 else 0) + count_digits s')%nat
  end.

(** [int(s)] for 7-bit text; [None] is [ValueError], which is also what a
    literal of more than [int_max_str_digits] digits raises. *)
Definition int (s : string) : option Z :=
  if (int_max_str_digits <? count_digits s)%nat then None
  else
    match rskip (lskip s) with
    | String "-" r => Z.opp <$> digits 0 false r
    | String "+" r => digits 0 false r
    | r => digits 0 false r
    end.

End Py.

(** ** The file system *)

(** What the handlers observe of a regular file: [os.stat]'s size and
    creation time, and what [readlines] returns when the file is opened as
    UTF-8 text ([None]: the bytes do not decode). *)
Record file := {
  st_size : Z;
  st_ctime : Z;
  readlines : option (list string);
}.

#[local] Set Warnings "-register-all".

Inductive node :=
| File (f : file)
| Dir (entries : list (string * node)).

(** The state of the file system: the node of the root directory [/]. *)
Definition filesystem := node.

Definition is_dir (n : node) : bool :=
  match n with Dir _ => true | File _ => false end.

Definition dirnames (es : list (string * node)) : list string :=
  omap (λ e, if is_dir e.2 then Some e.1 else None) es.

Definition filenames (es : list (string * node)) : list string :=
  omap (λ e, if is_dir e.2 then None else Some e.1) es.

Fixpoint lookup_entry (name : string) (es : list (string * node)) : option node :=
  match es with
  | [] => None
  | (n, x) :: es' => if decide (n = name) then Some x else lookup_entry name es'
  end.

(** The node reached from [n] through the names [comps]. *)
Fixpoint node_at (n : node) (comps : list string) : option node :=
  match comps with
  | [] => Some n
  | c :: cs =>
      match n with
      | Dir es => x ← lookup_entry c es; node_at x cs
      | File _ => None
      end
  end.

(** Names a directory entry can bear. *)
Definition valid_name (s : string) : bool :=
  negb (bool_decide (s = "")) && negb (bool_decide (s = "."))
  && negb (bool_decide (s = "..")) && negb (Py.contains s "/").

(** A directory lists each name once, and every name is a legal one. *)
Fixpoint wf_node (n : node) : bool :=
  match n with
  | File _ => true
  | Dir es =>
      bool_decide (NoDup es.*1)
      && forallb (λ e, valid_name e.1) es
      && forallb (λ e, wf_node e.2) es
  end.

(** ** [posixpath] *)

Module OsPath.

(** [os.path.join(a, b)] *)
Definition join (a b : string) : string :=
  if Py.startswith b "/" then b
  else if bool_decide (a = "") || Py.endswith a "/" then a +:+ b
  else a +:+ "/" +:+ b.

(** One round of [normpath]'s loop on an absolute path: empty and [.]
    components are skipped, [..] pops. *)
Definition norm_step (new_comps : list string) (comp : string) : list string :=
  if bool_decide (comp = "") || bool_decide (comp = ".") then new_comps
  else if bool_decide (comp = "..") then removelast new_comps
  else new_comps ++ [comp].

(** [[x for x in abspath(path).split("/") if x]] for an absolute [path] *)
Definition norm_comps (path : string) : list string :=
  foldl norm_step [] (Py.split "/" path).

Fixpoint commonprefix (l1 l2 : list string) : list string :=
  match l1, l2 with
  | a :: l1', b :: l2' => if decide (a = b) then a :: commonprefix l1' l2' else []
  | _, _ => []
  end.

(** [os.path.relpath(path, start)], both absolute *)
Definition relpath (path start : string) : string :=
  let start_list := norm_comps start in
  let path_list := norm_comps path in
  let i := length (commonprefix start_list path_list) in
  let rel_list := replicate (length start_list - i) ".." ++ drop i path_list in
  match rel_list with
  | [] => "."
  | p :: ps => foldl join p ps
  end.

(** Path resolution, one component at a time.  [cur] is the list of names
    from the root to the directory reached so far. *)
Definition resolve_step (root : node) (cur : option (list string)) (comp : string)
  : option (list string) :=
  p ← cur;
  match node_at root p with
  | Some (Dir _) =>
      if bool_decide (comp = "") || bool_decide (comp = ".") then Some p
      else if bool_decide (comp = "..") then Some (removelast p)
      else Some (p ++ [comp])
  | _ => None
  end.

(** The node an absolute path names, if any. *)
Definition resolve (fs : filesystem) (path : string) : option node :=
  if bool_decide (path = "") then None
  else
    p ← foldl (resolve_step fs) (Some []) (Py.split "/" path);
    node_at fs p.

(** [os.path.exists(path)] *)
Definition exists_ (fs : filesystem) (path : string) : bool :=
  bool_decide (is_Some (resolve fs path)).

End OsPath.

(** [os.walk(top)] on the node that [top] names: one triple
    [(root, dirs, files)] per directory, parents first.  Walking something
    that is not a directory yields nothing. *)
Fixpoint walk (top : string) (n : node) : list (string * list string * list string) :=
  match n with
  | File _ => []
  | Dir es =>
      (top, dirnames es, filenames es)
      :: (es ≫= λ e, walk (OsPath.join top e.1) e.2)
  end.

Definition os_walk (fs : filesystem) (top : string) : list (string * list string * list string) :=
  match OsPath.resolve fs top with
  | Some n => walk top n
  | None => []
  end.


(** ** The cluster client *)

(** What the handlers read of a pod: [metadata.name], the names in
    [spec.containers] and in [spec.init_containers] (which may be [None]). *)
Record pod := {
  metadata_name : string;
  spec_containers : list string;
  spec_init_containers : option (list string);
}.

(** The outcome of [v1.list_namespaced_pod(namespace=...)]: the pod list,
    or an [ApiException] with its status and reason.  These are the two
    outcomes the handlers provide for. *)
Inductive api_response :=
| PodList (items : list pod)
| ApiException (status : nat) (reason : string).

Definition cluster := string → api_response.

(** ** Process configuration and responses *)

Record config := {
  KUBE_NAMESPACE : string;
  KUBE_POD_NAME : string;
  RETAIN_ALL_POD_LOGS : bool;
  MAX_LOG_RETENTION_MINUTES : Z;
  ALLOW_PREVIOUS_LOG_PURGE : bool;
}.

Definition LOG_DIR : string := "/logs".

Record log_entry := {
  timestamp : option string;
  message : string;
  pod_name : string;
  container_name : option string;
}.

Inductive exn :=
| FileNotFoundError (path : string)
| IsADirectoryError (path : string)
| UnicodeDecodeError (path : string)
| Raised (text : string).

Inductive result (A : Type) :=
| Ok (a : A)
| Raise (e : exn).
Arguments Ok {A} a.
Arguments Raise {A} e.

(** The dictionaries the handlers pass to [jsonify], by shape.
    [Unexpected e] and [PurgeFailed e] carry the message
    ["An unexpected error occurred: " + str(e)]; [Purged] carries the counts
    its message is formatted from; [oldest_file_date] is the time stamp that
    is rendered with [datetime.fromtimestamp(...).isoformat()]. *)
Inductive body :=
| Pods (namespace : string) (pods : list string) (current_pod : string)
| ArchivedPods (archived_pods : list string) (message : option string)
| Message (message : string)
| Unexpected (e : exn)
| Logs (logs : list log_entry)
| StatsDisabled (message : string)
| Stats (total_size_mibytes : Q) (file_count : nat) (oldest_file_date : option Z)
        (message : option string)
| PurgeRefused (message : string)
| PurgeFailed (e : exn)
| Purged (deleted_count error_count : nat).

Definition response : Type := body * nat.

(** ** The handlers *)

(** The names one pod contributes, in the order the loop produces them:
    [pod/init-c] for each init container, then the bare pod name for a pod
    with a single container and no init container, or [pod/c] for each
    container otherwise. *)
Definition pod_container_names (p : pod) : list string :=
  let pod_name := metadata_name p in
  let containers := spec_containers p in
  let init_containers := default [] (spec_init_containers p) in
  ((λ init_container, pod_name +:+ "/init-" +:+ init_container) <$> init_containers)
  ++ (if bool_decide (length containers = 1%nat) && bool_decide (init_containers = [])
      then [pod_name]
      else (λ container, pod_name +:+ "/" +:+ container) <$> containers).

(** [/api/pods] *)
Definition get_pods (cfg : config) (v1 : cluster) (exclude_self : option string) : response :=
  let exclude_self := bool_decide (Py.lower (default "" exclude_self) = "true") in
  match v1 (KUBE_NAMESPACE cfg) with
  | PodList items =>
      let pod_info :=
        p ← items;
        if exclude_self && bool_decide (metadata_name p = KUBE_POD_NAME cfg) then []
        else pod_container_names p in
      (Pods (KUBE_NAMESPACE cfg) pod_info (KUBE_POD_NAME cfg), 200%nat)
  | ApiException status reason => (Message ("Error fetching pods: " +:+ reason), status)
  end.

(** The set built by the inner [try] of [get_archived_pods]; an
    [ApiException] leaves it empty. *)
Definition running_pod_containers (r : api_response) : gset string :=
  match r with
  | PodList items => list_to_set (items ≫= pod_container_names)
  | ApiException _ _ => ∅
  end.

(** The body of the [os.walk] loop of [get_archived_pods] for one file name. *)
Definition archived_name (cfg : config) (running : gset string) (root filename : string)
  : list string :=
  if Py.endswith filename ".log" then
    let file_path := OsPath.join root filename in
    let relative_path := OsPath.relpath file_path LOG_DIR in
    let pod_container := Py.drop_last 4 relative_path in
    if negb (Py.contains pod_container (KUBE_POD_NAME cfg))
       && bool_decide (pod_container ∉ running)
    then [pod_container] else []
  else [].

(** [/api/archived_pods].  Nothing in the model raises [OSError], so the
    handler's 500 branch does not appear. *)
Definition get_archived_pods (cfg : config) (v1 : cluster) (fs : filesystem) : response :=
  if negb (RETAIN_ALL_POD_LOGS cfg) then
    (ArchivedPods [] (Some "Previous pod logs are not enabled."), 200%nat)
  else if OsPath.exists_ fs LOG_DIR then
    let running := running_pod_containers (v1 (KUBE_NAMESPACE cfg)) in
    let archived_pod_names :=
      t ← os_walk fs LOG_DIR;
      filename ← t.2;
      archived_name cfg running t.1.1 filename in
    (ArchivedPods archived_pod_names None, 200%nat)
  else (ArchivedPods [] None, 200%nat).



(** [float(n)] for an integer [n], as the integer that float is equal to:
    [n] rounded to 53 significant bits, to the nearest and, on a tie, to
    the one whose last bit is zero. *)
Definition float_of_int (n : Z) : Z :=
  let m := Z.abs n in
  let e := Z.log2 m - 52 in
  if e <=? 0 then n
  else
    let q := m / 2 ^ e in
    let r := m mod 2 ^ e in
    let half := 2 ^ (e - 1) in
    let q := if (r <? half) || (r =? half) && Z.even q then q else q + 1 in
    Z.sgn n * (q * 2 ^ e).

(** [total_size / 1024 / 1024], as a rational.  Dividing an integer by 1024
    yields the float nearest to the quotient, which is the float nearest to
    the integer scaled by a power of two, and dividing that float by 1024 is
    exact.  The sizes of the files of a file system add up to far less than
    the largest float, so that no division overflows. *)
Definition mibytes (total_size : Z) : Q :=
  (inject_Z (float_of_int total_size) / 1024 / 1024)%Q.


(** [/api/purgePreviousLogs].  [purge_previous_pod_logs] is the function
    imported from [log_archiver]; it returns the two counts or raises, and
    leaves the file system in a new state. *)
Definition purge_previous_logs (cfg : config)
    (purge_previous_pod_logs : string → filesystem → result (nat * nat) * filesystem)
    (fs : filesystem) : response * filesystem :=
  if negb (RETAIN_ALL_POD_LOGS cfg) then
    ((PurgeRefused "Previous pod logs are not enabled.", 403%nat), fs)
  else if negb (ALLOW_PREVIOUS_LOG_PURGE cfg) then
    ((PurgeRefused "Previous log purging is not allowed.", 403%nat), fs)
  else
    match purge_previous_pod_logs LOG_DIR fs with
    | (Ok (deleted_count, error_count), fs') => ((Purged deleted_count error_count, 200%nat), fs')
    | (Raise e, fs') => ((PurgeFailed e, 500%nat), fs')
    end.

(** *** [parse_log_line] *)

(** [\d{n}] at the front of [s]: the digits matched and what follows. *)
Fixpoint take_digits (n : nat) (s : string) : option (string * string) :=
  match n with
  | O => Some ("", s)
  | S n' =>
      match s with
      | String c s' =>
          if Py.isdigit c then '(d, r) ← take_digits n' s'; Some (String c d, r)
          else None
      | "" => None
      end
  end.

(** One literal character at the front of [s]. *)
Definition take_char (c : ascii) (s : string) : option string :=
  match s with
  | String c' s' => if decide (c' = c) then Some s' else None
  | "" => None
  end.

(** The longest run of digits at the front of [s], and what follows. *)
Fixpoint digit_run (s : string) : string * string :=
  match s with
  | String c s' =>
      if Py.isdigit c then let '(d, r) := digit_run s' in (String c d, r)
      else ("", s)
  | "" => ("", "")
  end.

(** [(\.\d{1,9})?Z]: a [Z], or a dot, one to nine digits and a [Z].  After a
    dot the digits are taken greedily; a shorter match cannot be followed
    by [Z], and neither can the dot. *)
Definition take_fraction_Z (s : string) : option (string * string) :=
  match s with
  | String "Z" r => Some ("Z", r)
  | String "." s' =>
      let '(d, r) := digit_run s' in
      if bool_decide (1 ≤ String.length d ≤ 9)%nat then
        r' ← take_char "Z" r; Some ("." +:+ d +:+ "Z", r')
      else None
  | _ => None
  end.

(** The last group, any characters but a line feed, as many as there are:
    everything up to the first line feed. *)
Fixpoint dot_star (s : string) : string :=
  match s with
  | String c s' => if decide (c = "010"%char) then "" else String c (dot_star s')
  | "" => ""
  end.

(** [re.match] of the time stamp
    [(\d{4}-\d{2}-\d{2}T\d{2}:\d{2}:\d{2}(\.\d{1,9})?Z)], one [\s] and the
    rest of the line: groups 1 and 3. *)
Definition match_timestamp (line_str : string) : option (string * string) :=
  '(y, r) ← take_digits 4 line_str;
  r ← take_char "-" r;
  '(mo, r) ← take_digits 2 r;
  r ← take_char "-" r;
  '(d, r) ← take_digits 2 r;
  r ← take_char "T" r;
  '(h, r) ← take_digits 2 r;
  r ← take_char ":" r;
  '(mi, r) ← take_digits 2 r;
  r ← take_char ":" r;
  '(s, r) ← take_digits 2 r;
  '(z, r) ← take_fraction_Z r;
  match r with
  | String c r' =>
      if Py.isspace c then
        Some (y +:+ "-" +:+ mo +:+ "-" +:+ d +:+ "T" +:+ h +:+ ":" +:+ mi +:+ ":" +:+ s +:+ z,
              dot_star r')
      else None
  | "" => None
  end.

(** The two keys [parse_log_line] sets. *)
Definition parse_log_line (line_str : string) : option string * string :=
  match match_timestamp line_str with
  | Some (timestamp_str, rest) => (Some timestamp_str, Py.strip rest)
  | None => (None, Py.strip line_str)
  end.

(** *** [get_archived_logs] *)

(** [request.args]: the value of each parameter the handler reads, when the
    query string has it. *)
Record query := {
  arg_pod_name : option string;
  arg_sort_order : option string;
  arg_tail_lines : option string;
  arg_search_string : option string;
  arg_case_sensitive : option string;
}.

(** [x.get("timestamp") or "0000-00-00T00:00:00Z"] *)
Definition sort_key (x : log_entry) : string :=
  match timestamp x with
  | Some t => if bool_decide (t = "") then "0000-00-00T00:00:00Z" else t
  | None => "0000-00-00T00:00:00Z"
  end.

(** [list.sort(key=..., reverse=...)]: a stable sort.  [insert_sorted] puts
    [x], which preceded every element of [l] in the input, in front of the
    first element that does not sort strictly before it. *)
Fixpoint insert_sorted (reverse : bool) (x : log_entry) (l : list log_entry) : list log_entry :=
  match l with
  | [] => [x]
  | y :: l' =>
      if (if reverse then String.ltb (sort_key x) (sort_key y)
          else String.ltb (sort_key y) (sort_key x))
      then y :: insert_sorted reverse x l'
      else x :: l
  end.

Definition sort_logs (reverse : bool) (l : list log_entry) : list log_entry :=
  foldr (insert_sorted reverse) [] l.

(** The search filter applied to one parsed message. *)
Definition search_matches (search_string : string) (case_sensitive : bool) (msg : string) : bool :=
  if bool_decide (search_string = "") then true
  else
    let search_text := if case_sensitive then msg else Py.lower msg in
    let search_term := if case_sensitive then search_string else Py.lower search_string in
    Py.contains search_text search_term.

(** The loop over [raw_log_lines]. *)
Definition process_line (pod_name : string) (search_string : string) (case_sensitive : bool)
    (line_str : string) : list log_entry :=
  if bool_decide (Py.strip line_str = "") then []
  else
    let '(ts, msg) := parse_log_line line_str in
    if search_matches search_string case_sensitive msg then
      match Py.split_once "/" pod_name with
      | Some (pod, container) =>
          [{| timestamp := ts; message := msg; pod_name := pod; container_name := Some container |}]
      | None =>
          [{| timestamp := ts; message := msg; pod_name := pod_name; container_name := None |}]
      end
    else [].

(** [tail_lines = int(tail_lines_str) if tail_lines_str != "0" else None],
    with the check that follows; on the left, the message of the 400 answer. *)
Definition parse_tail_lines (tail_lines_str : string) : string + option Z :=
  if bool_decide (tail_lines_str = "0") then inr None
  else
    match Py.int tail_lines_str with
    | Some tail_lines =>
        if tail_lines <? 0 then inl "tail_lines must be non-negative or 0."
        else inr (Some tail_lines)
    | None => inl "Invalid number for tail_lines."
    end.

(** The slice taken after sorting. *)
Definition tail_slice (tail_lines : option Z) (sort_order : string) (l : list log_entry)
  : list log_entry :=
  match tail_lines with
  | Some n =>
      if 0 <? n then
        if bool_decide (sort_order = "desc") then take (Z.to_nat n) l
        else drop (length l - Z.to_nat n) l
      else l
  | None => l
  end.

(** [open(path, "r", encoding="utf-8")] followed by [readlines()]. *)
Definition read_text_lines (fs : filesystem) (path : string) : result (list string) :=
  match OsPath.resolve fs path with
  | Some (File f) =>
      match readlines f with
      | Some raw_log_lines => Ok raw_log_lines
      | None => Raise (UnicodeDecodeError path)
      end
  | Some (Dir _) => Raise (IsADirectoryError path)
  | None => Raise (FileNotFoundError path)
  end.

(** What the handler does with the lines it has read: filter, sort, slice. *)
Definition render_logs (pod_name sort_order search_string : string) (case_sensitive : bool)
    (tail_lines : option Z) (raw_log_lines : list string) : list log_entry :=
  let processed_logs :=
    raw_log_lines ≫= process_line pod_name search_string case_sensitive in
  let processed_logs := sort_logs (bool_decide (sort_order = "desc")) processed_logs in
  tail_slice tail_lines sort_order processed_logs.

(** [/api/archived_logs] *)
Definition get_archived_logs (cfg : config) (q : query) (fs : filesystem) : response :=
  if negb (RETAIN_ALL_POD_LOGS cfg) then
    (Message "Previous pod logs are not enabled.", 403%nat)
  else
    let sort_order := Py.lower (default "desc" (arg_sort_order q)) in
    let tail_lines_str := default "0" (arg_tail_lines q) in
    let search_string := Py.strip (default "" (arg_search_string q)) in
    let case_sensitive :=
      bool_decide (Py.lower (default "false" (arg_case_sensitive q)) = "true") in
    match arg_pod_name q with
    | None | Some "" => (Message "Pod name is required for archived logs", 400%nat)
    | Some pod_name =>
        let log_file_path := OsPath.join LOG_DIR (pod_name +:+ ".log") in
        if negb (OsPath.exists_ fs log_file_path) then
          (Message ("Previous log for pod/container " +:+ pod_name +:+ " not found."), 404%nat)
        else
          match parse_tail_lines tail_lines_str with
          | inl text => (Message text, 400%nat)
          | inr tail_lines =>
              match read_text_lines fs log_file_path with
              | Raise e => (Unexpected e, 500%nat)
              | Ok raw_log_lines =>
                  (Logs (render_logs pod_name sort_order search_string case_sensitive
                           tail_lines raw_log_lines), 200%nat)
              end
          end
    end.

(** Every parameter of a query that the handler strips, folds or reads as
    a number is 7-bit text. *)
Definition ascii_query (q : query) : bool :=
  Py.isascii (default "" (arg_sort_order q))
  && Py.isascii (default "" (arg_tail_lines q))
  && Py.isascii (default "" (arg_search_string q))
  && Py.isascii (default "" (arg_case_sensitive q)).

(** Every line of a file is 7-bit text. *)
Definition ascii_lines (raw_log_lines : list string) : bool :=
  forallb Py.isascii raw_log_lines.

(** ** Access control *)

(** What [require_api_key] and [login] read of a request: the [api_key]
    query parameter, the [X-API-Key] and [Accept] headers, the [api_key]
    field of a posted form, the referrer, and the [api_key] entry of the
    session. *)
Record credentials := {
  args_api_key : option string;
  header_X_API_Key : option string;
  header_Accept : option string;
  form_api_key : option string;
  referrer : option string;
  session_api_key : option string;
}.

(** What a wrapped handler answers: the handler's own answer, the JSON
    error with status 401, or the login form. *)
Inductive guarded (A : Type) :=
| Granted (answer : A)
| KeyRequired
| LoginForm.
Arguments Granted {A} answer.
Arguments KeyRequired {A}.
Arguments LoginForm {A}.

(** [not s] for a value that is a string or [None]. *)
Definition falsy (s : option string) : bool :=
  match s with
  | None | Some "" => true
  | Some _ => false
  end.

(** [x or d] for such a value and a string [d]. *)
Definition or_default (x : option string) (d : string) : string :=
  match x with
  | None | Some "" => d
  | Some s => s
  end.

(** The key a request presents: the first that is not empty among the query
    parameter, the header and the session. *)
Definition presented_key (request : credentials) : option string :=
  if negb (falsy (args_api_key request)) then args_api_key request
  else if negb (falsy (header_X_API_Key request)) then header_X_API_Key request
  else session_api_key request.

(** A key is required when [API_KEY] is set to something else than the
    empty text and [no-key]. *)
Definition key_required (API_KEY : option string) : bool :=
  negb (falsy API_KEY || bool_decide (API_KEY = Some "no-key")).

(** The wrapper that [require_api_key] returns, applied to a request;
    [API_KEY] is the environment variable and [f] the wrapped handler's
    answer to the request. *)
Definition require_api_key {A : Type} (API_KEY : option string) (request : credentials)
    (f : A) : guarded A :=
  let api_key := API_KEY in
  if falsy api_key || bool_decide (api_key = Some "no-key") then Granted f
  else
    let provided_key := args_api_key request in
    let provided_key :=
      if falsy provided_key then header_X_API_Key request else provided_key in
    let provided_key :=
      if falsy provided_key then session_api_key request else provided_key in
    if falsy provided_key || negb (bool_decide (provided_key = api_key)) then
      if bool_decide (header_Accept request = Some "application/json") then KeyRequired
      else LoginForm
    else Granted f.

(** What [login] answers: a redirect to a target, or the JSON error with
    status 401. *)
Inductive login_response :=
| Redirect (location : string)
| InvalidKey.

(** [/login]: the answer and the [api_key] entry of the session afterwards. *)
Definition login (API_KEY : option string) (request : credentials)
  : login_response * option string :=
  let api_key := API_KEY in
  let provided_key := form_api_key request in
  if falsy api_key || bool_decide (api_key = Some "no-key") then
    (Redirect (or_default (referrer request) "/"), Some "no-key")
  else if bool_decide (provided_key = api_key) then
    (Redirect (or_default (referrer request) "/"), provided_key)
  else (InvalidKey, session_api_key request).

(** The request a client sends next, with the session that [login] left. *)
Definition with_session (request : credentials) (session : option string) : credentials :=
  {| args_api_key := args_api_key request;
     header_X_API_Key := header_X_API_Key request;
     header_Accept := header_Accept request;
     form_api_key := form_api_key request;
     referrer := referrer request;
     session_api_key := session |}.

(** ** Purge capability *)

(** The dictionary of [/api/purgeCapability]. *)
Record purge_capability := {
  purge_allowed : bool;
  logs_enabled : bool;
  purge_enabled : bool;
}.

Definition get_purge_capability (cfg : config) : purge_capability :=
  {| purge_allowed := RETAIN_ALL_POD_LOGS cfg && ALLOW_PREVIOUS_LOG_PURGE cfg;
     logs_enabled := RETAIN_ALL_POD_LOGS cfg;
     purge_enabled := ALLOW_PREVIOUS_LOG_PURGE cfg |}.

(** ** The archive store *)

(** The archive entries below a directory node: every regular file whose
    name ends in [.log], with the names that lead to it, parents first and
    in listing order. *)
Fixpoint archive_files (n : node) : list (list string * file) :=
  match n with
  | File _ => []
  | Dir es =>
      omap (λ e, match e.2 with
                 | File f => if Py.endswith e.1 ".log" then Some ([e.1], f) else None
                 | Dir _ => None
                 end) es
      ++ (es ≫= λ e, prod_map (cons e.1) id <$> archive_files e.2)
  end.

(** The path of an entry that lies [comps] below [top]. *)
Definition path_below (top : string) (comps : list string) : string :=
  foldl OsPath.join top comps.

(** The entries of the store at [LOG_DIR]. *)
Definition archive_entries (fs : filesystem) : list (list string * file) :=
  match OsPath.resolve fs LOG_DIR with
  | Some n => archive_files n
  | None => []
  end.


Definition minimum_ctime (files : list file) : option Z :=
  foldr (λ f acc, Some (match acc with
                        | None => st_ctime f
                        | Some t => Z.min (st_ctime f) t
                        end)) None files.

(** The name under which an entry is listed and requested: the names that
    lead to it joined by [/], without the extension. *)
Definition entry_name (comps : list string) : string :=
  Py.drop_last 4 (Py.join "/" comps).

(** The test an entry name passes to be listed: it does not contain the
    viewer's pod name and is not the name of a running container. *)
Definition kept (cfg : config) (running : gset string) (name : string) : Prop :=
  Py.contains name (KUBE_POD_NAME cfg) = false ∧ name ∉ running.

#[global] Instance kept_dec cfg running name : Decision (kept cfg running name).
Proof. unfold kept. apply _. Defined.

(** The names in the body of a listing. *)
Definition listed (r : response) : list string :=
  match r.1 with
  | ArchivedPods archived_pods _ => archived_pods
  | _ => []
  end.

(** The text that the names [comps] add to a path. *)
Definition path_tail (comps : list string) : string :=
  foldr (λ c acc, "/" +:+ c +:+ acc) "" comps.

(** ** [log_archiver] *)

Module LogArchiver.

(** Modelled from the spec: the deletion of entries, shared by the purge
    and the sweep of [log_archiver], which is not among the sources.  An
    entry, that is a file with the extension of archived logs, goes when it
    is selected and unlinking it does not fail ("delete whole files by
    name"); a failure leaves it and the pass goes on; directories stay.
    [unlink_fails] tells for which paths the removal fails. *)
Fixpoint delete_entries (select : string → file → bool) (unlink_fails : string → bool)
    (top : string) (n : node) : node :=
  match n with
  | File f => File f
  | Dir es =>
      Dir (omap (λ e,
             match e.2 with
             | File f =>
                 let path := OsPath.join top e.1 in
                 if Py.endswith e.1 ".log" && select path f && negb (unlink_fails path)
                 then None else Some e
             | Dir _ =>
                 Some (e.1, delete_entries select unlink_fails (OsPath.join top e.1) e.2)
             end) es)
  end.

(** An entry outlives a pass when it is not selected or cannot be unlinked. *)
Definition survives (select : string → file → bool) (unlink_fails : string → bool)
    (top : string) (e : list string * file) : Prop :=
  ¬ (select (path_below top e.1) e.2 = true ∧ unlink_fails (path_below top e.1) = false).

#[global] Instance survives_dec select unlink_fails top e :
  Decision (survives select unlink_fails top e).
Proof. unfold survives. apply _. Defined.

(** Replacement of the node that [comps] leads to. *)
Fixpoint update_at (comps : list string) (g : node → node) (n : node) : node :=
  match comps with
  | [] => g n
  | c :: cs =>
      match n with
      | File f => File f
      | Dir es =>
          Dir ((fix go (l : list (string * node)) :=
                  match l with
                  | [] => []
                  | (name, x) :: l' =>
                      if decide (name = c) then (name, update_at cs g x) :: l'
                      else (name, x) :: go l'
                  end) es)
      end
  end.

(** Modelled from the spec: one deletion pass over the store at [log_dir],
    with the state it leaves and the pair [(deleted_count, error_count)] that
    the purge of [log_archiver] returns and the sweep logs. *)
Definition delete_pass (select : string → file → bool) (unlink_fails : string → bool)
    (log_dir : string) (fs : filesystem) : (nat * nat) * filesystem :=
  let comps := OsPath.norm_comps log_dir in
  match node_at fs comps with
  | Some n =>
      let selected :=
        filter (λ e, select (path_below log_dir e.1) e.2 = true) (archive_files n) in
      let failed :=
        filter (λ e, unlink_fails (path_below log_dir e.1) = true) selected in
      ((length selected - length failed, length failed)%nat,
       update_at comps (delete_entries select unlink_fails log_dir) fs)
  | None => ((0, 0)%nat, fs)
  end.

(** Modelled from the spec: the on-demand purge of [log_archiver], which is
    not among the sources.  "Deletes every entry in the Archive Store
    immediately ...; returns (deleted_count, error_count)"; a failure to
    delete one entry is counted and the pass goes on.  [unlink_fails]
    tells for which paths the removal fails. *)
Definition purge_previous_pod_logs (unlink_fails : string → bool)
    (log_dir : string) (fs : filesystem) : result (nat * nat) * filesystem :=
  let '(counts, fs') := delete_pass (λ _ _, true) unlink_fails log_dir fs in
  (Ok counts, fs').

(** Modelled from the spec: the age test of the periodic sweep, "for every
    entry older than max_age_minutes (by file creation time), delete it". *)
Definition expired (now max_age_minutes : Z) (f : file) : bool :=
  60 * max_age_minutes <? now - st_ctime f.

(** Modelled from the spec: one run, at time [now], of the periodic sweep
    that [start_log_cleanup_job] schedules ([log_archiver] is not among the
    sources).  "Failures deleting an individual entry are counted and
    logged; the sweep continues to the next entry rather than aborting." *)
Definition cleanup_sweep (unlink_fails : string → bool) (now : Z)
    (log_dir : string) (max_age_minutes : Z) (fs : filesystem)
  : (nat * nat) * filesystem :=
  delete_pass (λ _ f, expired now max_age_minutes f) unlink_fails log_dir fs.

End LogArchiver.

(** ** A sample deployment *)

Module Sample.

Definition text_file (size ctime : Z) (lines : list string) : node :=
  File {| st_size := size; st_ctime := ctime; readlines := Some lines |}.

(** The viewer runs in the pod [logpilot]. *)
Definition cfg : config := {|
  KUBE_NAMESPACE := "default";
  KUBE_POD_NAME := "logpilot";
  RETAIN_ALL_POD_LOGS := true;
  MAX_LOG_RETENTION_MINUTES := 10080;
  ALLOW_PREVIOUS_LOG_PURGE := true;
|}.

Definition cfg_no_purge : config := {|
  KUBE_NAMESPACE := "default";
  KUBE_POD_NAME := "logpilot";
  RETAIN_ALL_POD_LOGS := true;
  MAX_LOG_RETENTION_MINUTES := 10080;
  ALLOW_PREVIOUS_LOG_PURGE := false;
|}.

Definition line (s : string) : string := s +:+ String "010" "".

(** A literal of [n] zeros. *)
Definition zeros (n : nat) : string := Py.join "" (replicate n "0").

(** An archive with the log of pod [web], the two containers of [job-42],
    the log of the viewer's own pod and that of a pod named
    [logpilot-worker]. *)
Definition fs : filesystem :=
  Dir [("etc", Dir []);
       ("logs",
        Dir [("web.log",
              text_file 1048576 1700000000
                [line "2021-09-01T12:34:56.123456789Z started";
                 line "2021-09-01T12:34:55Z booting"]);
             ("job-42",
              Dir [("worker-1.log", text_file 20 1700000600 [line "exit code 1"]);
                   ("init-setup.log", text_file 5 1700000300 []);
                   ("notes.txt", text_file 1 1 [])]);
             ("logpilot.log", text_file 7 1700000100 []);
             ("logpilot-worker.log", text_file 3 1700000200 []);
             ("bundle.log", Dir [])])].


(** Pod [web] is running, with a single container. *)
Definition pods : list pod :=
  [{| metadata_name := "web"; spec_containers := ["app"]; spec_init_containers := None |}].

Definition v1 : cluster := λ _, PodList pods.


Definition request (name : string) (tail_lines : option string) : query := {|
  arg_pod_name := Some name;
  arg_sort_order := None;
  arg_tail_lines := tail_lines;
  arg_search_string := None;
  arg_case_sensitive := None;
|}.

End Sample.

(** ** Vocabulary of the further properties *)

(** A text made of decimal digits only. *)
Fixpoint all_digits (s : string) : bool :=
  match s with
  | "" => true
  | String c s' => Py.isdigit c && all_digits s'
  end.

(** A text without line feed. *)
Definition one_line (s : string) : bool :=
  negb (Py.contains s (String "010" "")).

(** The time stamp written from its fields, the fraction of a second being
    optional. *)
Definition iso_stamp (y mo d h mi s : string) (fraction : option string) : string :=
  y +:+ "-" +:+ mo +:+ "-" +:+ d +:+ "T" +:+ h +:+ ":" +:+ mi +:+ ":" +:+ s
    +:+ match fraction with
        | Some digits => "." +:+ digits +:+ "Z"
        | None => "Z"
        end.

(** The names in the body of the answer of [get_pods]. *)
Definition pods_of (r : response) : list string :=
  match r.1 with
  | Pods _ pods _ => pods
  | _ => []
  end.

(** The entries in the body of the answer of [get_archived_logs]. *)
Definition logs_of (r : response) : list log_entry :=
  match r.1 with
  | Logs logs => logs
  | _ => []
  end.

(** A query with another value of [tail_lines]. *)
Definition with_tail_lines (q : query) (tail_lines : option string) : query :=
  {| arg_pod_name := arg_pod_name q;
     arg_sort_order := arg_sort_order q;
     arg_tail_lines := tail_lines;
     arg_search_string := arg_search_string q;
     arg_case_sensitive := arg_case_sensitive q |}.

(** The order in which two entries may follow each other in an answer:
    keys do not decrease, or do not increase when the order is reversed. *)
Definition in_order (reverse : bool) (x y : log_entry) : Prop :=
  if reverse then String.leb (sort_key y) (sort_key x) = true
  else String.leb (sort_key x) (sort_key y) = true.

(** Some requests of a visitor, for a server whose key is [s3cret]. *)
Module Visitor.

Definition anonymous : credentials := {|
  args_api_key := None;
  header_X_API_Key := None;
  header_Accept := Some "application/json";
  form_api_key := None;
  referrer := None;
  session_api_key := None;
|}.

(** A wrong key in the query string, the right one in the header. *)
Definition mixed : credentials := {|
  args_api_key := Some "guess";
  header_X_API_Key := Some "s3cret";
  header_Accept := None;
  form_api_key := None;
  referrer := None;
  session_api_key := Some "s3cret";
|}.

Definition posting (key : string) : credentials := {|
  args_api_key := None;
  header_X_API_Key := None;
  header_Accept := None;
  form_api_key := Some key;
  referrer := Some "/";
  session_api_key := None;
|}.


End Visitor.

(** * Properties *)

(** ** The model at work *)

Example split_path :
  Py.split "/" "/logs/job-42/worker-1.log" = [""; "logs"; "job-42"; "worker-1.log"].
Proof. reflexivity. Qed.

Example join_nested : OsPath.join "/logs/job-42" "worker-1.log" = "/logs/job-42/worker-1.log".
Proof. reflexivity. Qed.

Example join_absolute : OsPath.join LOG_DIR "/etc/passwd.log" = "/etc/passwd.log".
Proof. reflexivity. Qed.

Example relpath_nested :
  OsPath.relpath "/logs/job-42/worker-1.log" LOG_DIR = "job-42/worker-1.log".
Proof. reflexivity. Qed.

Example int_literals :
  Py.int " +1_000 " = Some 1000 ∧ Py.int "-5" = Some (-5) ∧ Py.int "007" = Some 7
  ∧ Py.int "" = None ∧ Py.int "1__0" = None ∧ Py.int "- 5" = None ∧ Py.int "ten" = None.
Proof. repeat split; reflexivity. Qed.

(** A literal of 4300 digits is read; one more digit and [int] raises
    [ValueError], which the handler answers with 400. *)
Example int_digit_cap :
  Py.int (Sample.zeros 4300) = Some 0 ∧ Py.int (Sample.zeros 4301) = None
  ∧ parse_tail_lines (Sample.zeros 4301) = inl "Invalid number for tail_lines.".
Proof. repeat split; vm_compute; reflexivity. Qed.

(** A total of 2^53+1 bytes is not a float: the sum is rounded to 2^53
    before it is scaled, and 8589934592 is reported. *)
Example mibytes_rounds :
  float_of_int (2 ^ 53 + 1) = 2 ^ 53 ∧ (mibytes (2 ^ 53 + 1) == 8589934592)%Q
  ∧ float_of_int (2 ^ 53 + 3) = 2 ^ 53 + 4.
Proof. repeat split; vm_compute; reflexivity. Qed.

(** The example of the docstring of [parse_log_line], and a line without
    time stamp. *)
Example parse_stamped :
  parse_log_line "2021-09-01T12:34:56.123456789Z This is the log message."
  = (Some "2021-09-01T12:34:56.123456789Z", "This is the log message.").
Proof. reflexivity. Qed.

Example parse_plain :
  parse_log_line "  panic: 2021-09-01T12:34:56Z  " = (None, "panic: 2021-09-01T12:34:56Z").
Proof. reflexivity. Qed.

Example walk_sample :
  os_walk Sample.fs LOG_DIR
  = [("/logs", ["job-42"; "bundle.log"], ["web.log"; "logpilot.log"; "logpilot-worker.log"]);
     ("/logs/job-42", [], ["worker-1.log"; "init-setup.log"; "notes.txt"]);
     ("/logs/bundle.log", [], [])].
Proof. reflexivity. Qed.

(** [get_pods] leaves out the viewer's pod by comparing pod names. *)
Example get_pods_exclude_self :
  get_pods Sample.cfg
    (λ _, PodList [{| metadata_name := "logpilot"; spec_containers := ["viewer"];
                      spec_init_containers := None |};
                   {| metadata_name := "logpilot-worker"; spec_containers := ["worker"];
                      spec_init_containers := Some [] |};
                   {| metadata_name := "job-42"; spec_containers := ["worker-1"];
                      spec_init_containers := Some ["setup"] |}])
    (Some "True")
  = (Pods "default" ["logpilot-worker"; "job-42/init-setup"; "job-42/worker-1"] "logpilot",
     200%nat).
Proof. reflexivity. Qed.

(** ** Strings *)

Section strings.
Implicit Types s t r : string.

Lemma app_cons c s t : String c s +:+ t = String c (s +:+ t).
Proof. reflexivity. Qed.

Lemma app_empty_r s : s +:+ "" = s.
Proof. induction s as [|c s IH]; [done|]. by rewrite app_cons, IH. Qed.

Lemma app_assoc' s t r : (s +:+ t) +:+ r = s +:+ t +:+ r.
Proof. induction s as [|c s IH]; [done|]. by rewrite !app_cons, IH. Qed.

Lemma app_length s t : String.length (s +:+ t) = (String.length s + String.length t)%nat.
Proof. induction s as [|c s IH]; [done|]. rewrite app_cons. simpl. by rewrite IH. Qed.

Lemma startswith_spec s p : Py.startswith s p = true ↔ ∃ r, s = p +:+ r.
Proof.
  revert s. induction p as [|a p IH]; intros s.
  - split; [intros _; by exists s|by destruct s].
  - destruct s as [|c s]; simpl.
    + split; [done|]. intros [r Hr]. by rewrite app_cons in Hr.
    + rewrite andb_true_iff, bool_decide_eq_true, IH. split.
      * intros [-> [r ->]]. by exists r.
      * intros [r Hr]. rewrite app_cons in Hr. injection Hr as -> ->. eauto.
Qed.

Lemma endswith_spec s suf : Py.endswith s suf = true ↔ ∃ r, s = r +:+ suf.
Proof.
  induction s as [|c s IH]; simpl.
  - rewrite orb_false_r, bool_decide_eq_true. split.
    + intros <-. by exists "".
    + intros [[|? ?] Hr]; [done|]. by rewrite app_cons in Hr.
  - rewrite orb_true_iff, bool_decide_eq_true, IH. split.
    + intros [<-|[r ->]]; [by exists ""|]. by exists (String c r).
    + intros [[|a r] Hr]; [by left|].
      rewrite app_cons in Hr. injection Hr as -> ->. right. eauto.
Qed.

Lemma contains_spec s sub : Py.contains s sub = true ↔ ∃ a b, s = a +:+ sub +:+ b.
Proof.
  induction s as [|c s IH]; cbn [Py.contains].
  - rewrite orb_false_r, startswith_spec. split.
    + intros [r Hr]. by exists "", r.
    + intros [[|? ?] [b Hb]]; [by exists b|]. by rewrite app_cons in Hb.
  - rewrite orb_true_iff, startswith_spec, IH. split.
    + intros [[r Hr]|(a & b & ->)]; [by exists "", r|]. by exists (String c a), b.
    + intros ([|x a] & b & Hab); [left; by exists b|].
      rewrite app_cons in Hab. injection Hab as -> ->. right. eauto.
Qed.

Lemma contains_cons_false c s sub :
  Py.contains (String c s) sub = false → Py.contains s sub = false.
Proof. simpl. by intros [_ ?]%orb_false_iff. Qed.


Lemma drop_last_app s t : Py.drop_last (String.length t) (s +:+ t) = s.
Proof.
  unfold Py.drop_last. rewrite app_length.
  replace (String.length s + String.length t - String.length t)%nat
    with (String.length s) by lia.
  induction s as [|c s IH]; simpl.
  - by destruct t.
  - by rewrite IH.
Qed.

Lemma startswith_empty s : Py.startswith s "" = true.
Proof. by destruct s. Qed.

Lemma contains_char a s c :
  Py.contains (String a s) (String c "")
  = bool_decide (a = c) || Py.contains s (String c "").
Proof. cbn [Py.contains Py.startswith]. by rewrite startswith_empty, andb_true_r. Qed.

Lemma drop_last_log s : Py.drop_last 4 (s +:+ ".log") = s.
Proof. apply (drop_last_app s ".log"). Qed.

(** Splitting a text that has no separator, and one that has. *)
Lemma split_no_sep c s :
  Py.contains s (String c "") = false → Py.split c s = [s].
Proof.
  induction s as [|a s IH]; [done|]. rewrite contains_char.
  intros [Ha%bool_decide_eq_false Hs]%orb_false_iff. simpl.
  rewrite decide_False by done. by rewrite IH.
Qed.

Lemma split_nonempty c s : Py.split c s ≠ [].
Proof.
  induction s as [|a s IH]; [done|]. simpl.
  destruct (decide (a = c)); [done|]. by destruct (Py.split c s).
Qed.

Lemma split_app c s t :
  Py.contains s (String c "") = false →
  Py.split c (s +:+ String c t) = s :: Py.split c t.
Proof.
  induction s as [|a s IH].
  - intros _. simpl. by rewrite decide_True.
  - rewrite contains_char. intros [Ha%bool_decide_eq_false Hs]%orb_false_iff.
    simpl. rewrite decide_False by done. by rewrite IH.
Qed.


Lemma endswith_app_cons s c t :
  Py.endswith (s +:+ String c t) "/" = Py.endswith (String c t) "/".
Proof.
  induction s as [|a s IH]; [done|].
  rewrite app_cons. cbn [Py.endswith]. rewrite IH.
  rewrite bool_decide_eq_false_2; [done|].
  intros [= _ Htail]. by destruct s.
Qed.

End strings.

(** ** Paths *)

Section paths.
Implicit Types (s top : string) (comps : list string).

Lemma path_tail_cons c comps : path_tail (c :: comps) = String "/" (c +:+ path_tail comps).
Proof. reflexivity. Qed.

Lemma valid_name_spec c :
  valid_name c = true ↔ c ≠ "" ∧ c ≠ "." ∧ c ≠ ".." ∧ Py.contains c "/" = false.
Proof.
  unfold valid_name.
  rewrite !andb_true_iff, !negb_true_iff, !bool_decide_eq_false. tauto.
Qed.

Lemma endswith_contains s t : Py.endswith s t = true → Py.contains s t = true.
Proof.
  intros [r ->]%endswith_spec. apply contains_spec. exists r, "".
  by rewrite app_empty_r.
Qed.

Lemma startswith_contains s t : Py.startswith s t = true → Py.contains s t = true.
Proof. intros [r ->]%startswith_spec. apply contains_spec. by exists "", r. Qed.

Lemma join_valid top c :
  top ≠ "" → Py.endswith top "/" = false → valid_name c = true →
  OsPath.join top c = top +:+ "/" +:+ c.
Proof.
  intros Htop Hend (_ & _ & _ & Hc)%valid_name_spec. unfold OsPath.join.
  destruct (Py.startswith c "/") eqn:Hs.
  { apply startswith_contains in Hs. congruence. }
  by rewrite Hend, bool_decide_eq_false_2.
Qed.

Lemma join_valid_open top c :
  valid_name c = true →
  top +:+ "/" +:+ c ≠ "" ∧ Py.endswith (top +:+ "/" +:+ c) "/" = false.
Proof.
  intros (Hne & _ & _ & Hc)%valid_name_spec. split.
  { by destruct top. }
  change ("/" +:+ c) with (String "/" c). rewrite endswith_app_cons.
  cbn [Py.endswith]. rewrite bool_decide_eq_false_2.
  - destruct (Py.endswith c "/") eqn:He; [|done].
    apply endswith_contains in He. congruence.
  - intros [=]. done.
Qed.

Lemma path_below_valid top comps :
  top ≠ "" → Py.endswith top "/" = false → Forall (λ c, valid_name c = true) comps →
  path_below top comps = top +:+ path_tail comps.
Proof.
  intros Htop Hend Hv. revert top Htop Hend.
  induction Hv as [|c cs Hc _ IH]; intros top Htop Hend.
  - by rewrite app_empty_r.
  - change (path_below top (c :: cs)) with (path_below (OsPath.join top c) cs).
    rewrite join_valid by done.
    destruct (join_valid_open top c Hc) as [? ?].
    rewrite IH by done. by rewrite !app_assoc'.
Qed.

Lemma path_below_snoc top comps c :
  OsPath.join (path_below top comps) c = path_below top (comps ++ [c]).
Proof. unfold path_below. by rewrite foldl_snoc. Qed.

Lemma split_path_tail s comps :
  Py.contains s "/" = false → Forall (λ c, valid_name c = true) comps →
  Py.split "/" (s +:+ path_tail comps) = s :: comps.
Proof.
  intros Hs Hv. revert s Hs. induction Hv as [|c cs Hc _ IH]; intros s Hs.
  - change (path_tail []) with "". rewrite app_empty_r. by apply split_no_sep.
  - rewrite path_tail_cons, split_app by done. f_equal. apply IH.
    by apply valid_name_spec in Hc as (_ & _ & _ & ?).
Qed.

Lemma LOG_DIR_open : LOG_DIR ≠ "" ∧ Py.endswith LOG_DIR "/" = false.
Proof. done. Qed.

Lemma split_path_below comps :
  Forall (λ c, valid_name c = true) comps →
  Py.split "/" (path_below LOG_DIR comps) = "" :: "logs" :: comps.
Proof.
  intros Hv. rewrite path_below_valid by done.
  change (LOG_DIR +:+ path_tail comps) with ("" +:+ String "/" ("logs" +:+ path_tail comps)).
  rewrite split_app by done. f_equal. by apply split_path_tail.
Qed.

Lemma norm_steps acc comps :
  Forall (λ c, valid_name c = true) comps →
  foldl OsPath.norm_step acc comps = acc ++ comps.
Proof.
  intros Hv. revert acc. induction Hv as [|c cs Hc _ IH]; intros acc.
  - by rewrite app_nil_r.
  - apply valid_name_spec in Hc as (? & ? & ? & _). cbn [foldl].
    unfold OsPath.norm_step at 2. rewrite !bool_decide_eq_false_2 by done.
    cbn [orb]. rewrite IH. by rewrite <-app_assoc.
Qed.

Lemma norm_comps_below comps :
  Forall (λ c, valid_name c = true) comps →
  OsPath.norm_comps (path_below LOG_DIR comps) = "logs" :: comps.
Proof.
  intros Hv. unfold OsPath.norm_comps. rewrite split_path_below by done.
  cbn [foldl]. change (OsPath.norm_step (OsPath.norm_step [] "") "logs") with ["logs"].
  by rewrite norm_steps.
Qed.

Lemma join_path_tail p ps : Py.join "/" (p :: ps) = p +:+ path_tail ps.
Proof.
  revert p. induction ps as [|q qs IH]; intros p.
  - by rewrite app_empty_r.
  - rewrite path_tail_cons.
    change (Py.join "/" (p :: q :: qs)) with (p +:+ "/" +:+ Py.join "/" (q :: qs)).
    by rewrite IH.
Qed.

Lemma foldl_join_valid p ps :
  Forall (λ c, valid_name c = true) (p :: ps) →
  foldl OsPath.join p ps = Py.join "/" (p :: ps).
Proof.
  intros [Hp Hps]%Forall_cons. rewrite join_path_tail.
  apply valid_name_spec in Hp as (Hne & _ & _ & Hc).
  apply (path_below_valid p ps); [done| |done].
  destruct (Py.endswith p "/") eqn:He; [|done].
  apply endswith_contains in He. congruence.
Qed.

(** The path of an entry relative to [LOG_DIR] is its names joined by [/]. *)
Lemma relpath_below comps :
  comps ≠ [] → Forall (λ c, valid_name c = true) comps →
  OsPath.relpath (path_below LOG_DIR comps) LOG_DIR = Py.join "/" comps.
Proof.
  intros Hne Hv. unfold OsPath.relpath.
  rewrite norm_comps_below by done.
  change (OsPath.norm_comps LOG_DIR) with ["logs"].
  cbn [OsPath.commonprefix]. rewrite decide_True by done.
  destruct comps as [|p ps]; [done|]. cbn.
  by apply foldl_join_valid.
Qed.

Lemma node_at_app n a b : node_at n (a ++ b) = node_at n a ≫= λ x, node_at x b.
Proof.
  revert n. induction a as [|c a IH]; intros n; [done|].
  cbn [app node_at]. destruct n as [f|es]; [done|].
  destruct (lookup_entry c es) as [x|]; [|done]. apply IH.
Qed.

Lemma resolve_steps_none fs comps : foldl (OsPath.resolve_step fs) None comps = None.
Proof. by induction comps. Qed.

Lemma resolve_steps fs acc comps :
  Forall (λ c, valid_name c = true) comps →
  foldl (OsPath.resolve_step fs) (Some acc) comps ≫= node_at fs = node_at fs (acc ++ comps).
Proof.
  intros Hv. revert acc. induction Hv as [|c cs Hc _ IH]; intros acc.
  - by rewrite app_nil_r.
  - apply valid_name_spec in Hc as (? & ? & ? & _). cbn [foldl].
    rewrite (node_at_app fs acc (c :: cs)).
    unfold OsPath.resolve_step at 2. cbn [mbind option_bind].
    destruct (node_at fs acc) as [[f|es]|] eqn:Hacc.
    + by rewrite resolve_steps_none.
    + rewrite !bool_decide_eq_false_2 by done. cbn [orb].
      rewrite IH. rewrite <-app_assoc. cbn [app].
      by rewrite (node_at_app fs acc (c :: cs)), Hacc.
    + by rewrite resolve_steps_none.
Qed.

(** A path made of legal names resolves to the node those names lead to. *)
Lemma resolve_below fs comps :
  Forall (λ c, valid_name c = true) comps →
  OsPath.resolve fs (path_below LOG_DIR comps) = node_at fs ("logs" :: comps).
Proof.
  intros Hv. unfold OsPath.resolve.
  rewrite bool_decide_eq_false_2.
  2:{ rewrite path_below_valid by done. done. }
  rewrite split_path_below by done. cbn [foldl].
  unfold OsPath.resolve_step at 2. cbn [mbind option_bind node_at].
  destruct fs as [f|es].
  - by rewrite resolve_steps_none.
  - cbn [bool_decide orb]. 
    apply (resolve_steps (Dir es) [] ("logs" :: comps)). by constructor.
Qed.

Lemma resolve_LOG_DIR fs : OsPath.resolve fs LOG_DIR = node_at fs ["logs"].
Proof. apply (resolve_below fs []). constructor. Qed.

End paths.

(** ** Lists *)

Section lists.
Context {A B C : Type}.

Lemma bind_bind (l : list A) (F : A → list B) (G : B → list C) :
  (l ≫= F) ≫= G = l ≫= λ x, F x ≫= G.
Proof.
  induction l as [|x l IH]; [done|]. by rewrite !bind_cons, bind_app, IH.
Qed.

Lemma bind_if_fmap (P : A → bool) (g : A → B) (h : B → list C) (l : list A) :
  (l ≫= λ x, if P x then h (g x) else []) = (g <$> filter (λ x, P x = true) l) ≫= h.
Proof.
  induction l as [|x l IH]; [done|]. rewrite bind_cons, filter_cons.
  destruct (P x) eqn:HP.
  - rewrite decide_True by done. by rewrite fmap_cons, bind_cons, IH.
  - rewrite decide_False by done. by rewrite IH.
Qed.



Lemma bind_filter_singleton (P : A → Prop) `{!∀ x, Decision (P x)} (l : list A) :
  (l ≫= λ x, if decide (P x) then [x] else []) = filter P l.
Proof.
  induction l as [|x l IH]; [done|]. rewrite bind_cons, filter_cons, IH.
  by destruct (decide (P x)).
Qed.

Lemma filter_fmap' (g : A → B) (P : B → Prop) `{!∀ y, Decision (P y)} (l : list A) :
  filter P (g <$> l) = g <$> filter (P ∘ g) l.
Proof.
  induction l as [|x l IH]; [done|]. rewrite fmap_cons, !filter_cons, IH.
  cbn [compose]. by destruct (decide (P (g x))).
Qed.


Lemma filter_none (P : A → Prop) `{!∀ x, Decision (P x)} (l : list A) :
  (∀ x, x ∈ l → ¬ P x) → filter P l = [].
Proof.
  induction l as [|x l IH]; intros HP; [done|]. rewrite filter_cons.
  rewrite decide_False by (apply HP, elem_of_cons; auto).
  apply IH. intros; apply HP, elem_of_cons; auto.
Qed.

Lemma filter_length_zero (P : A → Prop) `{!∀ x, Decision (P x)} (l : list A) x :
  length (filter P l) = 0%nat → x ∈ l → ¬ P x.
Proof.
  intros Hlen Hin HP. apply length_zero_iff_nil in Hlen.
  by apply (filter_nil_not_elem_of P l x).
Qed.

End lists.

(** ** Directory trees *)

Section trees.

Lemma node_ind' (P : node → Prop) :
  (∀ f, P (File f)) →
  (∀ es, Forall (λ e, P e.2) es → P (Dir es)) →
  ∀ n, P n.
Proof.
  intros Hfile Hdir. fix IH 1. intros [f|es]; [apply Hfile|].
  apply Hdir. induction es as [|e es IHes]; constructor; [apply IH|apply IHes].
Qed.

(** The paths of the [.log] files that a walk visits are the paths of the
    archive entries, in the same order. *)
Lemma walk_log_paths top n :
  (walk top n ≫= λ t, OsPath.join t.1.1 <$> filter (λ x, Py.endswith x ".log" = true) t.2)
  = (λ e, path_below top e.1) <$> archive_files n.
Proof.
  revert top. induction n as [f|es IH] using node_ind'; intros top; [done|].
  cbn [walk archive_files]. rewrite bind_cons, fmap_app. cbn [fst snd]. f_equal.
  - clear IH. induction es as [|[name x] es IHes]; [done|].
    unfold filenames in *. cbn [omap list_omap fst snd].
    destruct x as [f|es']; cbn [is_dir].
    + rewrite filter_cons. destruct (Py.endswith name ".log") eqn:Hlog.
      * rewrite decide_True by done. rewrite !fmap_cons. f_equal. apply IHes.
      * rewrite decide_False by done. apply IHes.
    + apply IHes.
  - rewrite bind_bind. induction IH as [|[name x] es Hx _ IHes]; [done|].
    rewrite !bind_cons, fmap_app. f_equal; [|apply IHes].
    cbn [fst snd] in *. rewrite Hx, <-list_fmap_compose. done.
Qed.

Lemma node_at_wf n comps x :
  wf_node n = true → node_at n comps = Some x → wf_node x = true.
Proof.
  revert n. induction comps as [|c cs IH]; intros n Hwf Hat.
  - by injection Hat as <-.
  - destruct n as [f|es]; [done|]. cbn [node_at] in Hat.
    destruct (lookup_entry c es) as [y|] eqn:Hy; [|done].
    apply (IH y); [|done]. cbn [wf_node] in Hwf.
    apply andb_true_iff in Hwf as [_ Hsub]. clear -Hy Hsub.
    induction es as [|[name z] es IHes]; [done|].
    cbn [forallb snd] in Hsub. apply andb_true_iff in Hsub as [Hz Hsub].
    cbn [lookup_entry] in Hy. destruct (decide (name = c)); [congruence|auto].
Qed.

(** In a well-formed tree the names that lead to an entry are legal. *)
Lemma archive_files_valid n comps f :
  wf_node n = true → (comps, f) ∈ archive_files n →
  comps ≠ [] ∧ Forall (λ c, valid_name c = true) comps.
Proof.
  revert comps. induction n as [g|es IH] using node_ind'; intros comps Hwf Hin.
  { by apply elem_of_nil in Hin. }
  cbn [wf_node archive_files] in *.
  apply andb_true_iff in Hwf as [[_ Hnames]%andb_true_iff Hsub].
  rewrite forallb_forall in Hnames, Hsub.
  apply elem_of_app in Hin as [Hin|Hin].
  - apply list_elem_of_omap in Hin as ([name x] & Hx & Hsome). cbn [fst snd] in Hsome.
    destruct x as [g|?]; [|done]. destruct (Py.endswith name ".log"); [|done].
    injection Hsome as <- <-. split; [done|].
    constructor; [|done]. apply (Hnames (name, File g)). by apply list_elem_of_In.
  - apply list_elem_of_bind in Hin as ([name x] & Hin & Hx). cbn [fst snd] in Hin.
    apply list_elem_of_fmap in Hin as ([cs g] & [= -> ->] & Hin).
    rewrite Forall_forall in IH. split; [done|].
    constructor.
    + apply (Hnames (name, x)). by apply list_elem_of_In.
    + apply (IH (name, x) Hx cs); [|done]. apply (Hsub (name, x)). by apply list_elem_of_In.
Qed.


End trees.

(** ** The listing of [get_archived_pods] *)

Section listing.
Variables (cfg : config) (v1 : cluster).

Let running : gset string := running_pod_containers (v1 (KUBE_NAMESPACE cfg)).

Lemma resolve_LOG_DIR_wf fs store :
  wf_node fs = true → OsPath.resolve fs LOG_DIR = Some store → wf_node store = true.
Proof. rewrite resolve_LOG_DIR. apply node_at_wf. Qed.

Lemma exists_LOG_DIR fs :
  OsPath.exists_ fs LOG_DIR = bool_decide (is_Some (OsPath.resolve fs LOG_DIR)).
Proof. done. Qed.

(** The loop of the handler, by entry paths. *)
Lemma archived_names_by_paths store :
  (walk LOG_DIR store ≫= λ t, t.2 ≫= λ filename, archived_name cfg running t.1.1 filename)
  = archive_files store ≫= λ e,
      let pod_container := Py.drop_last 4 (OsPath.relpath (path_below LOG_DIR e.1) LOG_DIR) in
      if negb (Py.contains pod_container (KUBE_POD_NAME cfg))
         && bool_decide (pod_container ∉ running)
      then [pod_container] else [].
Proof.
  set (h := λ path : string,
         let pod_container := Py.drop_last 4 (OsPath.relpath path LOG_DIR) in
         if negb (Py.contains pod_container (KUBE_POD_NAME cfg))
            && bool_decide (pod_container ∉ running)
         then [pod_container] else []).
  trans (walk LOG_DIR store ≫= λ t,
           (OsPath.join t.1.1 <$> filter (λ x, Py.endswith x ".log" = true) t.2) ≫= h).
  { apply list_bind_ext; [|done]. intros t.
    apply (bind_if_fmap (λ x, Py.endswith x ".log") (OsPath.join t.1.1) h). }
  by rewrite <-bind_bind, walk_log_paths, list_fmap_bind.
Qed.

Lemma archived_names_of_store store :
  wf_node store = true →
  (walk LOG_DIR store ≫= λ t, t.2 ≫= λ filename, archived_name cfg running t.1.1 filename)
  = filter (kept cfg running) ((λ e, entry_name e.1) <$> archive_files store).
Proof.
  intros Hwf. rewrite archived_names_by_paths.
  rewrite <-bind_filter_singleton, list_fmap_bind.
  apply Forall_bind_ext, Forall_forall. intros [comps f] Hin. cbn [compose fst].
  destruct (archive_files_valid store comps f Hwf Hin) as [Hne Hv].
  rewrite relpath_below by done. fold (entry_name comps).
  destruct (decide (kept cfg running (entry_name comps))) as [[Hc Hr]|Hk].
  - by rewrite Hc, bool_decide_eq_true_2.
  - destruct (Py.contains (entry_name comps) (KUBE_POD_NAME cfg)) eqn:Hc; [done|].
    rewrite bool_decide_eq_false_2; [done|]. intros Hr. by apply Hk.
Qed.

(** The listing is the list of entry names, without those that contain the
    viewer's pod name and those of running containers. *)
Lemma listing_by_entries fs :
  RETAIN_ALL_POD_LOGS cfg = true → wf_node fs = true →
  get_archived_pods cfg v1 fs
  = (ArchivedPods (filter (kept cfg running) ((λ e, entry_name e.1) <$> archive_entries fs)) None,
     200%nat).
Proof.
  intros Hretain Hwf. unfold get_archived_pods, archive_entries, os_walk.
  rewrite Hretain, exists_LOG_DIR. cbn [negb].
  destruct (OsPath.resolve fs LOG_DIR) as [store|] eqn:Hres.
  - rewrite bool_decide_eq_true_2 by eauto.
    rewrite archived_names_of_store; [done|]. by eapply resolve_LOG_DIR_wf.
  - rewrite bool_decide_eq_false_2; [done|]. by intros [? ?].
Qed.

End listing.

(** ** Deletion passes *)

Section deletion.
Import LogArchiver.
Variables (select : string → file → bool) (unlink_fails : string → bool).

Lemma delete_entries_files top n :
  archive_files (delete_entries select unlink_fails top n)
  = filter (survives select unlink_fails top) (archive_files n).
Proof.
  revert top. induction n as [f|es IH] using node_ind'; intros top; [done|].
  cbn [delete_entries archive_files]. rewrite filter_app. f_equal.
  - clear IH. induction es as [|[name x] es IHes]; [done|].
    cbn [omap list_omap fst snd] in *. destruct x as [f|es']; cbn [fst snd].
    + destruct (Py.endswith name ".log") eqn:Hlog; cbn [andb].
      * rewrite filter_cons.
        destruct (decide (survives select unlink_fails top ([name], f))) as [Hs|Hs];
          unfold survives in Hs; cbn [fst snd path_below foldl] in Hs.
        -- replace (select (OsPath.join top name) f && negb (unlink_fails (OsPath.join top name)))
             with false.
           { cbn [omap list_omap fst snd]. rewrite Hlog. f_equal. apply IHes. }
           symmetry. apply not_true_is_false.
           intros [? ?%negb_true_iff]%andb_true_iff. by apply Hs.
        -- replace (select (OsPath.join top name) f && negb (unlink_fails (OsPath.join top name)))
             with true; [apply IHes|].
           symmetry. apply andb_true_iff.
           destruct (select (OsPath.join top name) f), (unlink_fails (OsPath.join top name));
             try done; exfalso; apply Hs; by intros [? ?].
      * cbn [omap list_omap fst snd]. rewrite Hlog. apply IHes.
    + apply IHes.
  - induction IH as [|[name x] es Hx _ IHes]; [done|].
    cbn [omap list_omap fst snd] in *. rewrite bind_cons, filter_app.
    destruct x as [f|es'].
    + destruct (Py.endswith name ".log" && select (OsPath.join top name) f
                && negb (unlink_fails (OsPath.join top name))).
      * apply IHes.
      * rewrite bind_cons. cbn [fst snd archive_files fmap list_fmap app]. apply IHes.
    + rewrite bind_cons. cbn [fst snd]. f_equal; [|apply IHes].
      rewrite Hx, filter_fmap'. done.
Qed.

Lemma update_at_here c g fs :
  node_at (update_at [c] g fs) [c] = g <$> node_at fs [c].
Proof.
  destruct fs as [f|es]; [done|]. cbn [update_at node_at].
  induction es as [|[name x] es IHes]; [done|]. cbn [lookup_entry].
  destruct (decide (name = c)) as [->|Hne]; cbn [lookup_entry].
  - by rewrite decide_True.
  - rewrite decide_False by done. apply IHes.
Qed.

(** The entries a pass leaves are those that survive it. *)
Lemma delete_pass_entries fs :
  archive_entries (delete_pass select unlink_fails LOG_DIR fs).2
  = filter (survives select unlink_fails LOG_DIR) (archive_entries fs).
Proof.
  unfold delete_pass, archive_entries.
  change (OsPath.norm_comps LOG_DIR) with ["logs"].
  rewrite !resolve_LOG_DIR.
  destruct (node_at fs ["logs"]) as [store|] eqn:Hstore; cbn [snd].
  - rewrite update_at_here, Hstore. cbn [fmap option_fmap option_map].
    apply delete_entries_files.
  - by rewrite Hstore.
Qed.

(** The error count of a pass is the number of selected entries it leaves. *)
Lemma delete_pass_errors fs e :
  (delete_pass select unlink_fails LOG_DIR fs).1.2 = 0%nat →
  e ∈ archive_entries fs → select (path_below LOG_DIR e.1) e.2 = true →
  unlink_fails (path_below LOG_DIR e.1) = false.
Proof.
  unfold delete_pass, archive_entries.
  change (OsPath.norm_comps LOG_DIR) with ["logs"]. rewrite resolve_LOG_DIR.
  destruct (node_at fs ["logs"]) as [store|]; cbn [fst snd]; [|by intros _ ?%elem_of_nil].
  intros Hzero Hin Hsel.
  apply not_true_is_false. intros Hfail.
  eapply (filter_length_zero _ _ e Hzero); [|exact Hfail].
  by apply list_elem_of_filter.
Qed.

End deletion.

Section soundness.




End soundness.

(** ** Purge *)

(** C2: while archiving is disabled or purging is not allowed, the purge
    endpoint answers 403 with a message fixed by the configuration alone: the
    answer depends neither on the file system nor on the purge routine, the
    file system is returned as it was, and the listing of archived entries is
    the same before and after. *)
Theorem purge_rejected_when_disabled cfg :
  RETAIN_ALL_POD_LOGS cfg = false ∨ ALLOW_PREVIOUS_LOG_PURGE cfg = false →
  ∃ message, ∀ purge_previous_pod_logs v1 fs,
    purge_previous_logs cfg purge_previous_pod_logs fs
    = ((PurgeRefused message, 403%nat), fs)
    ∧ get_archived_pods cfg v1 (purge_previous_logs cfg purge_previous_pod_logs fs).2
      = get_archived_pods cfg v1 fs.
Proof.
  intros Hoff. unfold purge_previous_logs.
  destruct (RETAIN_ALL_POD_LOGS cfg) eqn:Hretain; cbn [negb].
  - destruct Hoff as [? | ->]; [done|]. cbn [negb]. eexists. by intros.
  - eexists. by intros.
Qed.

Lemma purge_rejected_when_disabled_witness :
  (RETAIN_ALL_POD_LOGS Sample.cfg_no_purge = false
   ∨ ALLOW_PREVIOUS_LOG_PURGE Sample.cfg_no_purge = false)
  ∧ ∃ message, ∀ purge_previous_pod_logs v1 fs,
      purge_previous_logs Sample.cfg_no_purge purge_previous_pod_logs fs
      = ((PurgeRefused message, 403%nat), fs)
      ∧ get_archived_pods Sample.cfg_no_purge v1
          (purge_previous_logs Sample.cfg_no_purge purge_previous_pod_logs fs).2
        = get_archived_pods Sample.cfg_no_purge v1 fs.
Proof.
  split; [right; reflexivity|].
  apply (purge_rejected_when_disabled Sample.cfg_no_purge). right. reflexivity.
Defined.

(** C3: when the purge endpoint answers success with an error count of zero,
    the store it leaves has no archive entry and the listing that follows is
    empty. *)
Theorem purge_totality cfg v1 unlink_fails fs deleted_count fs' :
  purge_previous_logs cfg (LogArchiver.purge_previous_pod_logs unlink_fails) fs
  = ((Purged deleted_count 0, 200%nat), fs') →
  archive_entries fs' = []
  ∧ get_archived_pods cfg v1 fs' = (ArchivedPods [] None, 200%nat).
Proof.
  unfold purge_previous_logs, LogArchiver.purge_previous_pod_logs.
  destruct (RETAIN_ALL_POD_LOGS cfg) eqn:Hretain; cbn [negb]; [|done].
  destruct (ALLOW_PREVIOUS_LOG_PURGE cfg); cbn [negb]; [|done].
  pose proof (delete_pass_entries (λ _ _, true) unlink_fails fs) as Hleft.
  pose proof (delete_pass_errors (λ _ _, true) unlink_fails fs) as Herr.
  destruct (LogArchiver.delete_pass _ unlink_fails LOG_DIR fs) as [[d e] fs1].
  cbn [fst snd] in *. intros [= -> -> ->].
  assert (archive_entries fs' = []) as Hnone.
  { rewrite Hleft. apply filter_none. intros x Hx Hs. apply Hs. split; [done|].
    by apply Herr. }
  split; [done|]. unfold get_archived_pods. rewrite Hretain. cbn [negb].
  unfold archive_entries in Hnone. unfold os_walk. rewrite exists_LOG_DIR.
  destruct (OsPath.resolve fs' LOG_DIR) as [store|].
  - rewrite bool_decide_eq_true_2 by eauto.
    by rewrite archived_names_by_paths, Hnone.
  - rewrite bool_decide_eq_false_2; [done|]. by intros [? ?].
Qed.

Lemma purge_totality_witness :
  purge_previous_logs Sample.cfg (LogArchiver.purge_previous_pod_logs (λ _, false)) Sample.fs
  = ((Purged 5 0, 200%nat),
     (purge_previous_logs Sample.cfg
        (LogArchiver.purge_previous_pod_logs (λ _, false)) Sample.fs).2)
  ∧ get_archived_pods Sample.cfg Sample.v1
      (purge_previous_logs Sample.cfg
         (LogArchiver.purge_previous_pod_logs (λ _, false)) Sample.fs).2
    = (ArchivedPods [] None, 200%nat).
Proof.
  split; [vm_compute; reflexivity|].
  apply (purge_totality Sample.cfg Sample.v1 (λ _, false) Sample.fs 5).
  vm_compute. reflexivity.
Defined.

(** ** Retention *)

(** C7: an entry created at time [T] outlives a sweep with limit [M]
    minutes that runs before [T + M], whatever fails; in a sweep that runs
    after [T + M] it is selected for deletion, and it is gone unless
    unlinking it fails. *)
Theorem sweep_age_boundary unlink_fails now M fs comps f :
  (comps, f) ∈ archive_entries fs →
  let T := st_ctime f in
  let fs' := (LogArchiver.cleanup_sweep unlink_fails now LOG_DIR M fs).2 in
  (now < T + 60 * M → (comps, f) ∈ archive_entries fs')
  ∧ (T + 60 * M < now →
       LogArchiver.expired now M f = true
       ∧ (unlink_fails (path_below LOG_DIR comps) = false →
          (comps, f) ∉ archive_entries fs')).
Proof.
  intros Hin T fs'. subst T fs'. unfold LogArchiver.cleanup_sweep.
  rewrite delete_pass_entries. unfold LogArchiver.expired. split.
  - intros Hearly. apply list_elem_of_filter. split; [|done].
    intros [Hsel _]. cbn [fst snd] in Hsel. apply Z.ltb_lt in Hsel. lia.
  - intros Hlate. split; [apply Z.ltb_lt; lia|].
    intros Hok [Hs _]%list_elem_of_filter. apply Hs. cbn [fst snd]. split; [|done].
    apply Z.ltb_lt. lia.
Qed.

Lemma sweep_age_boundary_witness :
  (["job-42"; "worker-1.log"], {| st_size := 20; st_ctime := 1700000600;
                                  readlines := Some [Sample.line "exit code 1"] |})
    ∈ archive_entries Sample.fs
  ∧ 1700000600 + 60 * 10 < 1700001201
  ∧ (["job-42"; "worker-1.log"], {| st_size := 20; st_ctime := 1700000600;
                                    readlines := Some [Sample.line "exit code 1"] |})
      ∉ archive_entries (LogArchiver.cleanup_sweep (λ _, false) 1700001201 LOG_DIR 10 Sample.fs).2.
Proof.
  assert ((["job-42"; "worker-1.log"],
           {| st_size := 20; st_ctime := 1700000600;
              readlines := Some [Sample.line "exit code 1"] |})
            ∈ archive_entries Sample.fs) as Hin.
  { apply list_elem_of_In. vm_compute. do 3 right. left. reflexivity. }
  split; [exact Hin|]. split; [lia|].
  apply (sweep_age_boundary (λ _, false) 1700001201 10 Sample.fs _ _ Hin); [cbn; lia|done].
Defined.

(** ** Listing *)

Section listing_claims.

Lemma listed_not_self cfg v1 fs name :
  name ∈ listed (get_archived_pods cfg v1 fs) →
  Py.contains name (KUBE_POD_NAME cfg) = false.
Proof.
  unfold get_archived_pods, os_walk.
  destruct (RETAIN_ALL_POD_LOGS cfg); cbn [negb]; [|by intros ?%elem_of_nil].
  destruct (OsPath.exists_ fs LOG_DIR); [|by intros ?%elem_of_nil].
  destruct (OsPath.resolve fs LOG_DIR) as [store|]; [|by intros ?%elem_of_nil].
  unfold listed. cbn [fst]. rewrite archived_names_by_paths.
  intros (e & Hname & _)%list_elem_of_bind. cbn zeta in Hname.
  destruct (Py.contains _ (KUBE_POD_NAME cfg)) eqn:Hc; cbn [negb andb] in Hname.
  { by apply elem_of_nil in Hname. }
  destruct (bool_decide _); [|by apply elem_of_nil in Hname].
  apply list_elem_of_singleton in Hname as ->. exact Hc.
Qed.

End listing_claims.

(** C9: no listed name contains the viewer's pod name anywhere, as a prefix,
    a suffix or in the middle; so the entry of another pod whose name merely
    contains it is left out: with the viewer in pod [logpilot], the archive
    file [logpilot-worker.log] of a pod that is not running is not listed. *)
Theorem listing_omits_names_containing_own_pod_name :
  (∀ cfg v1 fs name a b,
     name ∈ listed (get_archived_pods cfg v1 fs) →
     name ≠ a +:+ KUBE_POD_NAME cfg +:+ b)
  ∧ (∃ f, ((["logpilot-worker.log"], f) ∈ archive_entries Sample.fs)
          ∧ entry_name ["logpilot-worker.log"] = "logpilot-worker"
          ∧ "logpilot-worker" ≠ KUBE_POD_NAME Sample.cfg
          ∧ ("logpilot-worker" ∉ running_pod_containers (Sample.v1 "default"))
          ∧ ("logpilot-worker" ∉ listed (get_archived_pods Sample.cfg Sample.v1 Sample.fs))).
Proof.
  split.
  - intros cfg v1 fs name a b Hin ->. apply listed_not_self in Hin.
    apply not_true_iff_false in Hin. apply Hin, contains_spec. eauto.
  - eexists. split; [|split; [|split; [|split]]].
    + apply list_elem_of_In. vm_compute. do 2 right. left. reflexivity.
    + reflexivity.
    + done.
    + by vm_compute.
    + intros Hin%listed_not_self. by vm_compute in Hin.
Qed.

Lemma listing_omits_names_containing_own_pod_name_witness :
  "job-42/worker-1" ∈ listed (get_archived_pods Sample.cfg Sample.v1 Sample.fs)
  ∧ "job-42/worker-1" ≠ "job-42/" +:+ KUBE_POD_NAME Sample.cfg +:+ "-1".
Proof.
  assert ("job-42/worker-1" ∈ listed (get_archived_pods Sample.cfg Sample.v1 Sample.fs)) as Hin.
  { apply list_elem_of_In. vm_compute. left. reflexivity. }
  split; [exact Hin|].
  exact (proj1 listing_omits_names_containing_own_pod_name
           Sample.cfg Sample.v1 Sample.fs _ "job-42/" "-1" Hin).
Defined.



(** C4: the listing leaves out an entry that is neither of the viewer's pod
    nor of a running container: with the viewer in pod [logpilot] and only
    [web] running, the entry of pod [logpilot-worker] is not listed. *)
Lemma listing_drops_entry_of_other_pod :
  get_archived_pods Sample.cfg Sample.v1 Sample.fs
  = (ArchivedPods ["job-42/worker-1"; "job-42/init-setup"] None, 200%nat)
  ∧ (entry_name <$> (archive_entries Sample.fs).*1)
    = ["web"; "logpilot"; "logpilot-worker"; "job-42/worker-1"; "job-42/init-setup"]
  ∧ "logpilot-worker" ≠ KUBE_POD_NAME Sample.cfg
  ∧ "logpilot-worker" ∉ running_pod_containers (Sample.v1 "default").
Proof.
  split; [by vm_compute|]. split; [by vm_compute|]. split; [done|by vm_compute].
Qed.



(** ** Statistics *)

Section stats.


Lemma minimum_ctime_spec files :
  match minimum_ctime files with
  | None => files = []
  | Some m => m ∈ st_ctime <$> files ∧ ∀ f, f ∈ files → m ≤ st_ctime f
  end.
Proof.
  induction files as [|f files IH]; [done|]. cbn [minimum_ctime foldr].
  fold (minimum_ctime files). destruct (minimum_ctime files) as [m|].
  - destruct IH as [Hm Hle]. split.
    + rewrite fmap_cons. apply elem_of_cons.
      destruct (Z.min_spec (st_ctime f) m) as [[_ ->]|[_ ->]]; auto.
    + intros g [->|Hg]%elem_of_cons; [lia|]. specialize (Hle g Hg). lia.
  - subst files. split.
    + apply elem_of_cons. by left.
    + intros g [->|Hg]%elem_of_cons; [lia|]. by apply elem_of_nil in Hg.
Qed.


End stats.





(** ** Reading an archived log *)




(** * Further properties of the handlers *)

(** ** Access control *)

Section access.
Context {A : Type}.
Implicit Types (API_KEY : option string) (request : credentials) (f : A).

(** With a key required, the wrapped handler answers exactly when the key
    presented, the first non-empty one among query parameter, header and
    session, is the configured one; otherwise the answer is the JSON error
    or the login form, by the [Accept] header alone. *)
Lemma require_api_key_cases API_KEY request f :
  key_required API_KEY = true →
  require_api_key API_KEY request f
  = if bool_decide (presented_key request = API_KEY) then Granted f
    else if bool_decide (header_Accept request = Some "application/json") then KeyRequired
    else LoginForm.
Proof.
  unfold key_required, require_api_key, presented_key.
  intros Hreq%negb_true_iff. rewrite Hreq. cbv zeta.
  apply orb_false_iff in Hreq as [Hfalsy _].
  destruct (falsy (args_api_key request)) eqn:Hq; cbn [negb].
  - destruct (falsy (header_X_API_Key request)) eqn:Hh; cbn [negb].
    + destruct (falsy (session_api_key request)) eqn:Hs; cbn [orb].
      * rewrite (bool_decide_eq_false_2 (session_api_key request = API_KEY)); [done|].
        intros Heq. congruence.
      * by destruct (bool_decide (session_api_key request = API_KEY)).
    + rewrite ?Hh. cbn [orb].
      by destruct (bool_decide (header_X_API_Key request = API_KEY)).
  - rewrite ?Hq. cbn [orb]. by destruct (bool_decide (args_api_key request = API_KEY)).
Qed.

End access.

(** X1: a request is let through to the wrapped handler exactly when no key
    is required ([API_KEY] unset, empty or [no-key]) or the key it presents is
    the configured one; a request that is not let through gets an answer that
    does not depend on the handler. *)
Theorem require_api_key_granted_iff (API_KEY : option string) (request : credentials) :
  (∀ (A : Type) (f : A),
      require_api_key API_KEY request f = Granted f
      ↔ key_required API_KEY = false ∨ presented_key request = API_KEY)
  ∧ (key_required API_KEY = true → presented_key request ≠ API_KEY →
     ∀ (A B : Type) (f : A) (g : B),
       (require_api_key API_KEY request f = KeyRequired
        ∧ require_api_key API_KEY request g = KeyRequired)
       ∨ (require_api_key API_KEY request f = LoginForm
          ∧ require_api_key API_KEY request g = LoginForm)).
Proof.
  split.
  - intros A f. destruct (key_required API_KEY) eqn:Hreq.
    + rewrite require_api_key_cases by done.
      destruct (decide (presented_key request = API_KEY)) as [Heq|Hne].
      * rewrite bool_decide_eq_true_2 by done. split; [intros _; by right|done].
      * rewrite bool_decide_eq_false_2 by done.
        destruct (bool_decide (header_Accept request = Some "application/json"));
          (split; [done|intros [?|?]; done]).
    + split; [auto|intros _]. unfold require_api_key, key_required in *.
      apply negb_false_iff in Hreq. by rewrite Hreq.
  - intros Hreq Hne A B f g. rewrite !require_api_key_cases by done.
    rewrite bool_decide_eq_false_2 by done.
    destruct (bool_decide (header_Accept request = Some "application/json")); auto.
Qed.

(** X2: a non-empty key in the query string that is not the configured one
    is refused even when the header and the session hold the right key. *)
Theorem wrong_query_key_shadows (API_KEY : option string) (request : credentials)
    (A : Type) (f : A) (key : string) :
  key_required API_KEY = true →
  args_api_key request = Some key → key ≠ "" → Some key ≠ API_KEY →
  require_api_key API_KEY request f ≠ Granted f.
Proof.
  intros Hreq Hq Hne Hwrong.
  rewrite require_api_key_cases by done. unfold presented_key. rewrite Hq.
  destruct key as [|c k]; [done|]. cbn [falsy negb].
  rewrite bool_decide_eq_false_2 by done.
  by destruct (bool_decide (header_Accept request = Some "application/json")).
Qed.

(** X3: after a login that answers with a redirect, a request of the same
    client that carries no key in the query string or in the header is let
    through to the handler. *)
Theorem login_then_granted (API_KEY : option string) (posted next : credentials)
    (location : string) (session : option string) (A : Type) (f : A) :
  login API_KEY posted = (Redirect location, session) →
  falsy (args_api_key next) = true → falsy (header_X_API_Key next) = true →
  require_api_key API_KEY (with_session next session) f = Granted f.
Proof.
  intros Hlogin Hq Hh.
  apply (proj1 (require_api_key_granted_iff API_KEY (with_session next session))).
  unfold login in Hlogin. unfold key_required.
  destruct (falsy API_KEY || bool_decide (API_KEY = Some "no-key")); [by left|].
  right. destruct (bool_decide (form_api_key posted = API_KEY)) eqn:Hkey; [|done].
  apply bool_decide_eq_true in Hkey. injection Hlogin as _ <-.
  unfold presented_key, with_session. cbn. by rewrite Hq, Hh.
Qed.

(** X4: a login is refused exactly when a key is required and the posted
    form does not hold it.  A refused login leaves the session as it was, so
    that the client's next request is treated as it would have been before;
    any other login answers with a redirect to the referrer, or to [/] when
    there is none. *)
Theorem login_refused_iff (API_KEY : option string) (posted : credentials) :
  ((login API_KEY posted).1 = InvalidKey
   ↔ key_required API_KEY = true ∧ form_api_key posted ≠ API_KEY)
  ∧ ((login API_KEY posted).1 = InvalidKey →
     (login API_KEY posted).2 = session_api_key posted
     ∧ ∀ (next : credentials) (A : Type) (f : A),
         require_api_key API_KEY (with_session next (login API_KEY posted).2) f
         = require_api_key API_KEY (with_session next (session_api_key posted)) f)
  ∧ ((login API_KEY posted).1 ≠ InvalidKey →
     (login API_KEY posted).1 = Redirect (or_default (referrer posted) "/")).
Proof.
  unfold login, key_required.
  destruct (falsy API_KEY || bool_decide (API_KEY = Some "no-key")); cbn [negb fst snd].
  { split; [|done]. split; [done|]. by intros [? _]. }
  destruct (decide (form_api_key posted = API_KEY)) as [Heq|Hne].
  - rewrite bool_decide_eq_true_2 by done. cbn [fst snd].
    split; [|done]. split; [done|]. by intros [_ ?].
  - rewrite bool_decide_eq_false_2 by done. cbn [fst snd]. done.
Qed.

Lemma require_api_key_granted_iff_witness :
  key_required (Some "s3cret") = true
  ∧ presented_key Visitor.anonymous ≠ Some "s3cret"
  ∧ require_api_key (Some "s3cret") Visitor.anonymous 0%nat = KeyRequired.
Proof.
  split; [reflexivity|]. split; [done|].
  destruct (proj2 (require_api_key_granted_iff (Some "s3cret") Visitor.anonymous)
              eq_refl ltac:(done) nat nat 0%nat 0%nat) as [[H _]|[H _]]; [exact H|].
  by vm_compute in H.
Defined.

Lemma wrong_query_key_shadows_witness :
  header_X_API_Key Visitor.mixed = Some "s3cret"
  ∧ require_api_key (Some "s3cret") Visitor.mixed 0%nat ≠ Granted 0%nat.
Proof.
  split; [reflexivity|].
  apply (wrong_query_key_shadows (Some "s3cret") Visitor.mixed nat 0%nat "guess");
    [reflexivity|reflexivity|done|done].
Defined.

Lemma login_then_granted_witness :
  login (Some "s3cret") (Visitor.posting "s3cret") = (Redirect "/", Some "s3cret")
  ∧ require_api_key (Some "s3cret") (with_session Visitor.anonymous (Some "s3cret")) 0%nat
    = Granted 0%nat.
Proof.
  split; [reflexivity|].
  apply (login_then_granted (Some "s3cret") (Visitor.posting "s3cret") Visitor.anonymous
           "/" (Some "s3cret") nat 0%nat); reflexivity.
Defined.

Lemma login_refused_iff_witness :
  (login (Some "s3cret") (Visitor.posting "guess")).1 = InvalidKey
  ∧ (login (Some "s3cret") (Visitor.posting "guess")).2 = None.
Proof.
  split; [reflexivity|].
  apply (proj1 (proj2 (login_refused_iff (Some "s3cret") (Visitor.posting "guess")))
           eq_refl).
Defined.

(** ** [parse_log_line] *)

Section parsing.
Implicit Types s r d : string.

Lemma take_digits_app n d r :
  all_digits d = true → String.length d = n → take_digits n (d +:+ r) = Some (d, r).
Proof.
  revert n. induction d as [|c d IH]; intros n Hd <-; [done|].
  cbn [all_digits] in Hd. apply andb_true_iff in Hd as [Hc Hd].
  rewrite app_cons. cbn [String.length take_digits]. rewrite Hc.
  by rewrite (IH (String.length d)).
Qed.

Lemma take_digits_inv n s d r :
  take_digits n s = Some (d, r) → s = d +:+ r ∧ String.length d = n.
Proof.
  revert s d r. induction n as [|n IH]; intros s d r; cbn [take_digits].
  { by intros [= <- <-]. }
  destruct s as [|c s]; [done|]. destruct (Py.isdigit c); [|done].
  destruct (take_digits n s) as [[d' r']|] eqn:Hrec; [|done].
  cbn. intros [= <- <-]. destruct (IH s d' r' Hrec) as [-> <-]. done.
Qed.

Lemma take_char_inv c s r : take_char c s = Some r → s = String c r.
Proof.
  destruct s as [|c' s]; [done|]. cbn. destruct (decide (c' = c)) as [->|]; [|done].
  by intros [= ->].
Qed.

Lemma digit_run_inv s d r : digit_run s = (d, r) → s = d +:+ r.
Proof.
  revert d r. induction s as [|c s IH]; intros d r; cbn [digit_run].
  { by intros [= <- <-]. }
  destruct (Py.isdigit c).
  - destruct (digit_run s) as [d' r']. intros [= <- <-]. by rewrite (IH d' r').
  - by intros [= <- <-].
Qed.

Lemma digit_run_app d c r :
  all_digits d = true → Py.isdigit c = false →
  digit_run (d +:+ String c r) = (d, String c r).
Proof.
  intros Hd Hc. induction d as [|a d IH].
  - change ("" +:+ String c r) with (String c r). cbn [digit_run]. by rewrite Hc.
  - cbn [all_digits] in Hd. apply andb_true_iff in Hd as [Ha Hd].
    rewrite app_cons. cbn [digit_run]. by rewrite Ha, IH.
Qed.

Lemma dot_star_one_line s : one_line s = true → dot_star s = s.
Proof.
  unfold one_line. intros H%negb_true_iff. induction s as [|c s IH]; [done|].
  rewrite contains_char in H. apply orb_false_iff in H as [Hc%bool_decide_eq_false Hs].
  cbn [dot_star]. rewrite decide_False by done. by rewrite IH.
Qed.

Lemma take_fraction_Z_inv s z r :
  take_fraction_Z s = Some (z, r) →
  s = z +:+ r ∧ (1 ≤ String.length z ≤ 11)%nat ∧ Py.endswith z "Z" = true.
Proof.
  unfold take_fraction_Z. destruct s as [|c s]; [done|].
  destruct (decide (c = "Z"%char)) as [->|HZ].
  { intros [= <- <-]. split; [done|]. split; [cbn; lia|done]. }
  destruct (decide (c = "."%char)) as [->|Hdot].
  - destruct (digit_run s) as [d t] eqn:Hrun.
    destruct (bool_decide (1 ≤ String.length d ≤ 9)%nat) eqn:Hlen; [|done].
    apply bool_decide_eq_true in Hlen.
    destruct (take_char "Z" t) as [t'|] eqn:Ht; [|done]. cbn. intros [= <- <-].
    apply take_char_inv in Ht as ->. apply digit_run_inv in Hrun as ->.
    split; [by rewrite !app_assoc'|]. split.
    + change ("." +:+ d +:+ "Z") with (String "." (d +:+ "Z")).
      cbn [String.length]. rewrite app_length. cbn. lia.
    + apply endswith_spec. exists ("." +:+ d). by rewrite app_assoc'.
  - intros H. exfalso. revert H.
    destruct c as [[] [] [] [] [] [] [] []]; try done; by (exfalso; auto).
Qed.

End parsing.

Section stripping.
Implicit Types s r : string.

Lemma lstrip_head s c r : Py.lstrip s = String c r → Py.isspace c = false.
Proof.
  induction s as [|a s IH]; [done|]. cbn [Py.lstrip].
  destruct (Py.isspace a) eqn:Ha; [done|]. by intros [= <- _].
Qed.

Lemma rstrip_head s c r : Py.rstrip s = String c r → ∃ s', s = String c s'.
Proof.
  destruct s as [|a s]; [done|]. cbn [Py.rstrip].
  destruct (Py.rstrip s); [destruct (Py.isspace a)|]; intros [= <- _]; eauto.
Qed.

Lemma rstrip_last s r c : Py.rstrip s = r +:+ String c "" → Py.isspace c = false.
Proof.
  revert r. induction s as [|a s IH]; intros r; cbn [Py.rstrip].
  { by destruct r. }
  destruct (Py.rstrip s) as [|b t] eqn:Ht.
  - destruct (Py.isspace a) eqn:Ha; [by destruct r|].
    destruct r as [|x [|y r]]; cbn; [by intros [= <-]|done|done].
  - destruct r as [|x r]; [done|]. rewrite app_cons. intros [= _ Hr]. by apply (IH r).
Qed.

(** The text [strip] returns neither begins nor ends with white space. *)
Lemma strip_trimmed s :
  (∀ c r, Py.strip s = String c r → Py.isspace c = false)
  ∧ (∀ r c, Py.strip s = r +:+ String c "" → Py.isspace c = false).
Proof.
  unfold Py.strip. split.
  - intros c r Hs. destruct (rstrip_head _ _ _ Hs) as [s' Hl]. by apply lstrip_head in Hl.
  - intros r c. apply rstrip_last.
Qed.

End stripping.

(** X5: a line made of a time stamp (four-digit year, two-digit month, day,
    hour, minute and second, an optional fraction of one to nine digits, and
    [Z]), one white-space character and a message of 7-bit text is parsed
    into that very time stamp and the message without surrounding white
    space, whatever follows the first line feed. *)
Theorem parse_log_line_stamped y mo d h mi s fraction sp msg ending :
  all_digits y = true → String.length y = 4%nat →
  all_digits mo = true → String.length mo = 2%nat →
  all_digits d = true → String.length d = 2%nat →
  all_digits h = true → String.length h = 2%nat →
  all_digits mi = true → String.length mi = 2%nat →
  all_digits s = true → String.length s = 2%nat →
  (∀ digits, fraction = Some digits →
     all_digits digits = true ∧ (1 ≤ String.length digits ≤ 9)%nat) →
  Py.isspace sp = true → Py.isascii msg = true → one_line msg = true →
  (ending = "" ∨ ∃ rest, ending = String "010" rest) →
  parse_log_line (iso_stamp y mo d h mi s fraction +:+ String sp (msg +:+ ending))
  = (Some (iso_stamp y mo d h mi s fraction), Py.strip msg).
Proof.
  intros Hy Hy4 Hmo Hmo2 Hd Hd2 Hh Hh2 Hmi Hmi2 Hs Hs2 Hfr Hsp _ Hmsg Hend.
  assert (dot_star (msg +:+ ending) = msg) as Hdot.
  { destruct Hend as [->|[rest ->]].
    - rewrite app_empty_r. by apply dot_star_one_line.
    - clear -Hmsg. unfold one_line in Hmsg. apply negb_true_iff in Hmsg.
      induction msg as [|c msg IH].
      + done.
      + rewrite contains_char in Hmsg.
        apply orb_false_iff in Hmsg as [Hc%bool_decide_eq_false Hmsg].
        rewrite app_cons. cbn [dot_star]. rewrite decide_False by done. by rewrite IH. }
  unfold parse_log_line, match_timestamp, iso_stamp. rewrite !app_assoc'.
  rewrite (take_digits_app 4 y) by done. cbn [mbind option_bind].
  change ("-" +:+ mo +:+ ?x) with (String "-" (mo +:+ x)). cbn [take_char].
  rewrite decide_True by done. cbn [mbind option_bind].
  rewrite (take_digits_app 2 mo) by done. cbn [mbind option_bind].
  change ("-" +:+ d +:+ ?x) with (String "-" (d +:+ x)). cbn [take_char].
  rewrite decide_True by done. cbn [mbind option_bind].
  rewrite (take_digits_app 2 d) by done. cbn [mbind option_bind].
  change ("T" +:+ h +:+ ?x) with (String "T" (h +:+ x)). cbn [take_char].
  rewrite decide_True by done. cbn [mbind option_bind].
  rewrite (take_digits_app 2 h) by done. cbn [mbind option_bind].
  change (":" +:+ mi +:+ ?x) with (String ":" (mi +:+ x)). cbn [take_char].
  rewrite decide_True by done. cbn [mbind option_bind].
  rewrite (take_digits_app 2 mi) by done. cbn [mbind option_bind].
  change (":" +:+ s +:+ ?x) with (String ":" (s +:+ x)). cbn [take_char].
  rewrite decide_True by done. cbn [mbind option_bind].
  rewrite (take_digits_app 2 s) by done. cbn [mbind option_bind].
  destruct fraction as [digits|].
  - destruct (Hfr digits eq_refl) as [Hdigits Hlen].
    rewrite !app_assoc'.
    change ("." +:+ digits +:+ "Z" +:+ ?x) with (String "." (digits +:+ String "Z" x)).
    cbn [take_fraction_Z]. rewrite digit_run_app by done.
    rewrite bool_decide_eq_true_2 by done. cbn [take_char].
    rewrite decide_True by done. cbn [mbind option_bind].
    by rewrite Hsp, Hdot.
  - change ("Z" +:+ ?x) with (String "Z" x). cbn [take_fraction_Z mbind option_bind].
    by rewrite Hsp, Hdot.
Qed.

Lemma parse_log_line_stamped_witness :
  parse_log_line
    (iso_stamp "2021" "09" "01" "12" "34" "56" (Some "123456789")
       +:+ String " " ("  worker started " +:+ String "010" ""))
  = (Some "2021-09-01T12:34:56.123456789Z", "worker started").
Proof.
  rewrite (parse_log_line_stamped "2021" "09" "01" "12" "34" "56" (Some "123456789")
             " " "  worker started " (String "010" ""));
    try reflexivity.
  - intros digits [= <-]. split; [reflexivity|cbn; lia].
  - right. by eexists.
Defined.

(** X6: the message that [parse_log_line] returns never begins or ends with
    a white-space character. *)
Theorem parse_log_line_message_trimmed line_str :
  (∀ c r, (parse_log_line line_str).2 = String c r → Py.isspace c = false)
  ∧ (∀ r c, (parse_log_line line_str).2 = r +:+ String c "" → Py.isspace c = false).
Proof.
  unfold parse_log_line.
  destruct (match_timestamp line_str) as [[t rest]|]; cbn [snd]; apply strip_trimmed.
Qed.

Lemma parse_log_line_message_trimmed_witness :
  (parse_log_line "  panic: out of memory  ").2 = String "p" "anic: out of memory"
  ∧ Py.isspace "p" = false.
Proof.
  split; [reflexivity|].
  apply (proj1 (parse_log_line_message_trimmed "  panic: out of memory  ")
           "p"%char "anic: out of memory").
  reflexivity.
Defined.

(** X7: a time stamp that [parse_log_line] returns for a line of 7-bit
    text is the beginning of the line, has between 20 and 30 characters and
    ends in [Z]; what follows it in the line begins with a white-space
    character. *)
Theorem parse_log_line_timestamp_prefix line_str timestamp_str :
  Py.isascii line_str = true →
  (parse_log_line line_str).1 = Some timestamp_str →
  (20 ≤ String.length timestamp_str ≤ 30)%nat
  ∧ Py.endswith timestamp_str "Z" = true
  ∧ ∃ sp rest, line_str = timestamp_str +:+ String sp rest ∧ Py.isspace sp = true.
Proof.
  intros _. unfold parse_log_line, match_timestamp.
  destruct (take_digits 4 line_str) as [[y r1]|] eqn:H1; cbn [mbind option_bind]; [|done].
  apply take_digits_inv in H1 as [-> Hy].
  destruct (take_char "-" r1) as [r2|] eqn:H2; cbn [mbind option_bind]; [|done].
  apply take_char_inv in H2 as ->.
  destruct (take_digits 2 r2) as [[mo r3]|] eqn:H3; cbn [mbind option_bind]; [|done].
  apply take_digits_inv in H3 as [-> Hmo].
  destruct (take_char "-" r3) as [r4|] eqn:H4; cbn [mbind option_bind]; [|done].
  apply take_char_inv in H4 as ->.
  destruct (take_digits 2 r4) as [[d r5]|] eqn:H5; cbn [mbind option_bind]; [|done].
  apply take_digits_inv in H5 as [-> Hd].
  destruct (take_char "T" r5) as [r6|] eqn:H6; cbn [mbind option_bind]; [|done].
  apply take_char_inv in H6 as ->.
  destruct (take_digits 2 r6) as [[h r7]|] eqn:H7; cbn [mbind option_bind]; [|done].
  apply take_digits_inv in H7 as [-> Hh].
  destruct (take_char ":" r7) as [r8|] eqn:H8; cbn [mbind option_bind]; [|done].
  apply take_char_inv in H8 as ->.
  destruct (take_digits 2 r8) as [[mi r9]|] eqn:H9; cbn [mbind option_bind]; [|done].
  apply take_digits_inv in H9 as [-> Hmi].
  destruct (take_char ":" r9) as [r10|] eqn:H10; cbn [mbind option_bind]; [|done].
  apply take_char_inv in H10 as ->.
  destruct (take_digits 2 r10) as [[s r11]|] eqn:H11; cbn [mbind option_bind]; [|done].
  apply take_digits_inv in H11 as [-> Hs].
  destruct (take_fraction_Z r11) as [[z r12]|] eqn:H12; cbn [mbind option_bind]; [|done].
  apply take_fraction_Z_inv in H12 as (-> & Hz & HZ).
  destruct r12 as [|sp rest]; [done|]. destruct (Py.isspace sp) eqn:Hsp; [|done].
  cbn [fst]. intros [= <-]. split; [|split].
  - change ("-" +:+ ?x) with (String "-" x). change ("T" +:+ ?x) with (String "T" x).
    change (":" +:+ ?x) with (String ":" x).
    repeat first [rewrite app_length | progress cbn [String.length]]. lia.
  - apply endswith_spec in HZ as [z' ->]. apply endswith_spec.
    eexists. by rewrite <-!app_assoc'.
  - exists sp, rest. split; [|done]. rewrite !app_assoc'. reflexivity.
Qed.

Lemma parse_log_line_timestamp_prefix_witness :
  (parse_log_line "2021-09-01T12:34:55Z booting").1 = Some "2021-09-01T12:34:55Z"
  ∧ (20 ≤ String.length "2021-09-01T12:34:55Z" ≤ 30)%nat.
Proof.
  split; [reflexivity|].
  apply (parse_log_line_timestamp_prefix "2021-09-01T12:34:55Z booting"); reflexivity.
Defined.

(** ** [get_pods] *)

Section pods.
Variable cfg : config.

Lemma pod_container_names_length p :
  length (pod_container_names p)
  = (length (default [] (spec_init_containers p)) + length (spec_containers p))%nat.
Proof.
  unfold pod_container_names. rewrite length_app, !length_fmap.
  destruct (bool_decide (length (spec_containers p) = 1%nat)) eqn:Hone; cbn [andb].
  - apply bool_decide_eq_true in Hone.
    destruct (bool_decide (default [] (spec_init_containers p) = [])); cbn [length].
    + by rewrite Hone.
    + by rewrite length_fmap.
  - by rewrite length_fmap.
Qed.

Lemma bind_length {A B} (g : A → list B) (l : list A) :
  length (l ≫= g) = sum_list ((λ x, length (g x)) <$> l).
Proof.
  induction l as [|x l IH]; [done|]. rewrite bind_cons, length_app, IH. done.
Qed.

Lemma bind_filter {A B} (P : A → Prop) `{!∀ x, Decision (P x)} (g : A → list B) (l : list A) :
  (l ≫= λ x, if decide (P x) then g x else []) = filter P l ≫= g.
Proof.
  induction l as [|x l IH]; [done|]. rewrite bind_cons, filter_cons, IH.
  destruct (decide (P x)); [by rewrite bind_cons|done].
Qed.

(** A name that the handler lists is not the name of a running container. *)
Lemma listed_not_running v1 fs name :
  name ∈ listed (get_archived_pods cfg v1 fs) →
  name ∉ running_pod_containers (v1 (KUBE_NAMESPACE cfg)).
Proof.
  unfold get_archived_pods, os_walk.
  destruct (RETAIN_ALL_POD_LOGS cfg); cbn [negb]; [|by intros ?%elem_of_nil].
  destruct (OsPath.exists_ fs LOG_DIR); [|by intros ?%elem_of_nil].
  destruct (OsPath.resolve fs LOG_DIR) as [store|]; [|by intros ?%elem_of_nil].
  unfold listed. cbn [fst]. rewrite archived_names_by_paths.
  intros (e & Hname & _)%list_elem_of_bind. cbn zeta in Hname.
  destruct (negb _); cbn [andb] in Hname; [|by apply elem_of_nil in Hname].
  destruct (bool_decide _) eqn:Hrun; [|by apply elem_of_nil in Hname].
  apply list_elem_of_singleton in Hname as ->. by apply bool_decide_eq_true in Hrun.
Qed.

End pods.

(** X8: without [exclude_self] the pod listing holds one name for each
    container and each init container of every pod of the namespace. *)
Theorem get_pods_one_name_per_container cfg v1 items :
  v1 (KUBE_NAMESPACE cfg) = PodList items →
  (get_pods cfg v1 None).2 = 200%nat
  ∧ length (pods_of (get_pods cfg v1 None))
    = sum_list ((λ p, length (default [] (spec_init_containers p))
                      + length (spec_containers p))%nat <$> items).
Proof.
  intros Hlist. unfold get_pods, pods_of. rewrite Hlist. cbn [fst snd andb].
  split; [done|]. rewrite bind_length. f_equal.
  apply list_fmap_ext. intros _ p _. apply pod_container_names_length.
Qed.

Lemma get_pods_one_name_per_container_witness :
  length (pods_of (get_pods Sample.cfg
            (λ _, PodList [{| metadata_name := "job-42"; spec_containers := ["worker-1"];
                              spec_init_containers := Some ["setup"] |};
                           {| metadata_name := "web"; spec_containers := ["app"];
                              spec_init_containers := None |}]) None))
  = 3%nat.
Proof.
  rewrite (proj2 (get_pods_one_name_per_container Sample.cfg _ _ eq_refl)). reflexivity.
Defined.

(** X9: with [exclude_self] set to [true], in any letter case, the pod
    listing is the listing of the pods whose name is not exactly the viewer's
    pod name. *)
Theorem get_pods_exclude_self_by_name cfg v1 items flag :
  Py.lower flag = "true" →
  v1 (KUBE_NAMESPACE cfg) = PodList items →
  get_pods cfg v1 (Some flag)
  = get_pods cfg
      (λ _, PodList (filter (λ p, metadata_name p ≠ KUBE_POD_NAME cfg) items)) None.
Proof.
  intros Hflag Hlist. unfold get_pods. rewrite Hlist.
  change (default "" (Some flag)) with flag. change (default "" None) with "".
  rewrite Hflag, bool_decide_eq_true_2 by done. cbn [andb].
  do 2 f_equal. rewrite <-bind_filter. apply list_bind_ext; [|done]. intros p.
  destruct (decide (metadata_name p = KUBE_POD_NAME cfg)) as [Heq|Hne].
  - rewrite bool_decide_eq_true_2 by done. by rewrite decide_False by auto.
  - rewrite bool_decide_eq_false_2 by done. by rewrite decide_True.
Qed.

Lemma get_pods_exclude_self_by_name_witness :
  pods_of (get_pods Sample.cfg
             (λ _, PodList [{| metadata_name := "logpilot"; spec_containers := ["viewer"];
                               spec_init_containers := None |};
                            {| metadata_name := "logpilot-worker"; spec_containers := ["w"];
                               spec_init_containers := None |}]) (Some "TRUE"))
  = ["logpilot-worker"].
Proof.
  rewrite (get_pods_exclude_self_by_name Sample.cfg _ _ "TRUE" eq_refl eq_refl).
  reflexivity.
Defined.

(** X10: for one state of the cluster, a name that the pod listing holds is
    never in the listing of archived logs. *)
Theorem live_names_are_not_archived cfg v1 fs items name :
  v1 (KUBE_NAMESPACE cfg) = PodList items →
  name ∈ pods_of (get_pods cfg v1 None) →
  name ∉ listed (get_archived_pods cfg v1 fs).
Proof.
  intros Hlist Hlive Harchived. apply listed_not_running in Harchived.
  apply Harchived. rewrite Hlist. cbn [running_pod_containers].
  apply elem_of_list_to_set. unfold get_pods, pods_of in Hlive.
  by rewrite Hlist in Hlive.
Qed.

Lemma live_names_are_not_archived_witness :
  "web" ∈ pods_of (get_pods Sample.cfg Sample.v1 None)
  ∧ "web" ∉ listed (get_archived_pods Sample.cfg Sample.v1 Sample.fs).
Proof.
  assert ("web" ∈ pods_of (get_pods Sample.cfg Sample.v1 None)) as Hlive.
  { apply list_elem_of_In. vm_compute. left. reflexivity. }
  split; [exact Hlive|].
  exact (live_names_are_not_archived Sample.cfg Sample.v1 Sample.fs Sample.pods "web"
           eq_refl Hlive).
Defined.

(** ** The answer of [get_archived_logs] *)

Section answer.

Lemma ltb_leb x y : String.ltb x y = true → String.leb x y = true.
Proof. unfold String.ltb, String.leb. by destruct (String.compare x y). Qed.

Lemma ltb_false_leb x y : String.ltb x y = false → String.leb y x = true.
Proof.
  unfold String.ltb, String.leb. rewrite (String.compare_antisym x y).
  by destruct (String.compare y x).
Qed.

Lemma leb_trans x y z :
  String.leb x y = true → String.leb y z = true → String.leb x z = true.
Proof.
  intros Hxy%Is_true_true Hyz%Is_true_true. apply Is_true_true.
  change (String.le x z). by trans y.
Qed.

Lemma in_order_trans reverse x y z :
  in_order reverse x y → in_order reverse y z → in_order reverse x z.
Proof.
  unfold in_order. destruct reverse; eauto using leb_trans.
Qed.

Lemma insert_sorted_perm reverse x l : insert_sorted reverse x l ≡ₚ x :: l.
Proof.
  induction l as [|y l IH]; [done|]. cbn [insert_sorted].
  destruct (if reverse then _ else _); [|done].
  rewrite IH. apply Permutation_swap.
Qed.

Lemma sort_logs_perm reverse l : sort_logs reverse l ≡ₚ l.
Proof.
  induction l as [|x l IH]; [done|]. unfold sort_logs in *. cbn [foldr].
  by rewrite insert_sorted_perm, IH.
Qed.

Lemma insert_sorted_sorted reverse x l :
  StronglySorted (in_order reverse) l →
  StronglySorted (in_order reverse) (insert_sorted reverse x l).
Proof.
  induction 1 as [|y l Hl IH Hy]; cbn [insert_sorted].
  { repeat constructor. }
  destruct (if reverse then String.ltb (sort_key x) (sort_key y)
            else String.ltb (sort_key y) (sort_key x)) eqn:Hcmp.
  - constructor; [done|]. rewrite insert_sorted_perm. constructor; [|done].
    unfold in_order. destruct reverse; by apply ltb_leb.
  - assert (in_order reverse x y) as Hxy.
    { unfold in_order. destruct reverse; by apply ltb_false_leb. }
    constructor; [by constructor|]. constructor; [done|].
    eapply Forall_impl; [exact Hy|]. intros z Hz. by eapply in_order_trans.
Qed.

Lemma sort_logs_sorted reverse l : StronglySorted (in_order reverse) (sort_logs reverse l).
Proof.
  induction l as [|x l IH]; [constructor|]. by apply insert_sorted_sorted.
Qed.

(** Inserting an entry puts it in front of the entries with its key. *)
Lemma insert_sorted_stable reverse x l k :
  filter (λ e, sort_key e = k) (insert_sorted reverse x l)
  = filter (λ e, sort_key e = k) (x :: l).
Proof.
  induction l as [|y l IH]; [done|]. cbn [insert_sorted].
  destruct (if reverse then String.ltb (sort_key x) (sort_key y)
            else String.ltb (sort_key y) (sort_key x)) eqn:Hcmp; [|done].
  assert (sort_key x ≠ sort_key y) as Hne.
  { intros Heq. rewrite Heq in Hcmp. unfold String.ltb in Hcmp.
    pose proof (String.compare_antisym (sort_key y) (sort_key y)) as Hanti.
    destruct (String.compare (sort_key y) (sort_key y)); cbn in Hanti;
      [by destruct reverse|done|done]. }
  rewrite filter_cons, IH, !filter_cons.
  destruct (decide (sort_key y = k)) as [Hy|Hy]; [|done].
  destruct (decide (sort_key x = k)); [congruence|done].
Qed.

Lemma sort_logs_stable reverse l k :
  filter (λ e, sort_key e = k) (sort_logs reverse l) = filter (λ e, sort_key e = k) l.
Proof.
  induction l as [|x l IH]; [done|]. unfold sort_logs in *. cbn [foldr].
  by rewrite insert_sorted_stable, !filter_cons, IH.
Qed.

Lemma tail_slice_sublist tail_lines sort_order l :
  tail_slice tail_lines sort_order l `sublist_of` l.
Proof.
  unfold tail_slice. destruct tail_lines as [n|]; [|done].
  destruct (0 <? n); [|done].
  destruct (bool_decide (sort_order = "desc")); [apply sublist_take|apply sublist_drop].
Qed.

Lemma tail_slice_length n sort_order l :
  0 < n → (length (tail_slice (Some n) sort_order l) ≤ Z.to_nat n)%nat.
Proof.
  intros Hn. unfold tail_slice. rewrite (proj2 (Z.ltb_lt 0 n)) by done.
  destruct (bool_decide (sort_order = "desc")).
  - rewrite length_take. lia.
  - rewrite length_drop. lia.
Qed.

Lemma tail_slice_sorted reverse tail_lines sort_order l :
  StronglySorted (in_order reverse) l →
  StronglySorted (in_order reverse) (tail_slice tail_lines sort_order l).
Proof.
  intros Hl. unfold tail_slice. destruct tail_lines as [n|]; [|done].
  destruct (0 <? n); [|done].
  destruct (bool_decide (sort_order = "desc")).
  - rewrite <-(take_drop (Z.to_nat n) l) in Hl. by apply StronglySorted_app_1_l in Hl.
  - rewrite <-(take_drop (length l - Z.to_nat n) l) in Hl.
    by apply StronglySorted_app_1_r in Hl.
Qed.

(** What an answer 200 of the handler was computed from. *)
Lemma get_archived_logs_ok cfg q fs logs :
  get_archived_logs cfg q fs = (Logs logs, 200%nat) →
  ∃ name tail_lines f raw_log_lines,
    arg_pod_name q = Some name ∧ name ≠ ""
    ∧ parse_tail_lines (default "0" (arg_tail_lines q)) = inr tail_lines
    ∧ OsPath.resolve fs (OsPath.join LOG_DIR (name +:+ ".log")) = Some (File f)
    ∧ readlines f = Some raw_log_lines
    ∧ logs = render_logs name (Py.lower (default "desc" (arg_sort_order q)))
               (Py.strip (default "" (arg_search_string q)))
               (bool_decide (Py.lower (default "false" (arg_case_sensitive q)) = "true"))
               tail_lines raw_log_lines.
Proof.
  unfold get_archived_logs. destruct (RETAIN_ALL_POD_LOGS cfg); cbn [negb]; [|done].
  destruct (arg_pod_name q) as [[|c name]|]; [done| |done].
  destruct (OsPath.exists_ fs _); cbn [negb]; [|done].
  destruct (parse_tail_lines _) as [text|tail_lines]; [done|].
  unfold read_text_lines.
  destruct (OsPath.resolve fs _) as [[f|es]|] eqn:Hres; [|done|done].
  destruct (readlines f) as [raw|] eqn:Hraw; [|done].
  intros [= <-]. by exists (String c name), tail_lines, f, raw.
Qed.

End answer.

(** X11: an answer 200 to a request whose [tail_lines] is a positive number
    holds at most that many entries; and a [tail_lines] that reads as zero,
    however it is written, is answered like a request without limit. *)
Theorem archived_logs_limit cfg q fs :
  (∀ logs n,
     get_archived_logs cfg q fs = (Logs logs, 200%nat) →
     parse_tail_lines (default "0" (arg_tail_lines q)) = inr (Some n) → 0 < n →
     (length logs ≤ Z.to_nat n)%nat)
  ∧ (∀ text, Py.int text = Some 0 →
     get_archived_logs cfg (with_tail_lines q (Some text)) fs
     = get_archived_logs cfg (with_tail_lines q None) fs).
Proof.
  split.
  - intros logs n (name & tl & f & raw & _ & _ & Htl & _ & _ & ->)%get_archived_logs_ok Hn Hpos.
    rewrite Hn in Htl. injection Htl as <-. by apply tail_slice_length.
  - intros text Hzero. unfold get_archived_logs, with_tail_lines. cbn.
    destruct (RETAIN_ALL_POD_LOGS cfg); [|done]. cbn [negb].
    destruct (arg_pod_name q) as [[|c name]|]; [done| |done].
    destruct (OsPath.exists_ fs _); [|done]. cbn [negb].
    unfold parse_tail_lines. rewrite Hzero. cbn.
    destruct (bool_decide (text = "0")); cbn; by destruct (read_text_lines fs _).
Qed.

Lemma archived_logs_limit_witness :
  get_archived_logs Sample.cfg (Sample.request "web" (Some "1")) Sample.fs
  = (Logs [{| timestamp := Some "2021-09-01T12:34:56.123456789Z"; message := "started";
              pod_name := "web"; container_name := None |}], 200%nat)
  ∧ (length (logs_of (get_archived_logs Sample.cfg (Sample.request "web" (Some "1"))
                        Sample.fs)) ≤ 1)%nat.
Proof.
  assert (get_archived_logs Sample.cfg (Sample.request "web" (Some "1")) Sample.fs
          = (Logs [{| timestamp := Some "2021-09-01T12:34:56.123456789Z";
                      message := "started"; pod_name := "web"; container_name := None |}],
             200%nat)) as Hanswer by (vm_compute; reflexivity).
  split; [exact Hanswer|]. rewrite Hanswer at 1.
  apply (proj1 (archived_logs_limit Sample.cfg (Sample.request "web" (Some "1")) Sample.fs)
           _ 1 Hanswer); [reflexivity|lia].
Defined.

(** X12: the entries of an answer 200 are in the order of their sort keys
    compared as text, character by character; the key of an entry is its
    time stamp as it is written, or [0000-00-00T00:00:00Z] for an entry
    without one.  Keys do not increase along the answer when [sort_order]
    is [desc], in any letter case, or absent, and do not decrease for any
    other value. *)
Theorem archived_logs_sorted cfg q fs logs :
  get_archived_logs cfg q fs = (Logs logs, 200%nat) →
  StronglySorted
    (in_order (bool_decide (Py.lower (default "desc" (arg_sort_order q)) = "desc"))) logs.
Proof.
  intros (name & tl & f & raw & _ & _ & _ & _ & _ & ->)%get_archived_logs_ok.
  unfold render_logs. apply tail_slice_sorted, sort_logs_sorted.
Qed.

Lemma archived_logs_sorted_witness :
  StronglySorted (in_order true)
    [{| timestamp := Some "2021-09-01T12:34:56.123456789Z"; message := "started";
        pod_name := "web"; container_name := None |};
     {| timestamp := Some "2021-09-01T12:34:55Z"; message := "booting";
        pod_name := "web"; container_name := None |}].
Proof.
  apply (archived_logs_sorted Sample.cfg (Sample.request "web" None) Sample.fs).
  vm_compute. reflexivity.
Defined.

Section provenance.

Lemma sublist_filter {A} (P : A → Prop) `{!∀ x, Decision (P x)} (l k : list A) :
  l `sublist_of` k → filter P l `sublist_of` filter P k.
Proof.
  induction 1 as [|x l k _ IH|x l k _ IH]; [done| |].
  - rewrite !filter_cons. destruct (decide (P x)); [by constructor|done].
  - rewrite filter_cons. destruct (decide (P x)); [by constructor|done].
Qed.

Lemma process_line_inv name search_string case_sensitive line_str e :
  e ∈ process_line name search_string case_sensitive line_str →
  Py.strip line_str ≠ ""
  ∧ timestamp e = (parse_log_line line_str).1
  ∧ message e = (parse_log_line line_str).2
  ∧ search_matches search_string case_sensitive (message e) = true
  ∧ (pod_name e, container_name e)
    = match Py.split_once "/" name with
      | Some (pod, container) => (pod, Some container)
      | None => (name, None)
      end.
Proof.
  unfold process_line.
  destruct (decide (Py.strip line_str = "")) as [Hblank|Hblank].
  { rewrite bool_decide_eq_true_2 by done. by intros ?%elem_of_nil. }
  rewrite bool_decide_eq_false_2 by done.
  destruct (parse_log_line line_str) as [ts msg].
  destruct (search_matches search_string case_sensitive msg) eqn:Hsearch;
    [|by intros ?%elem_of_nil].
  destruct (Py.split_once "/" name) as [[pod container]|];
    intros ->%list_elem_of_singleton; done.
Qed.

End provenance.

(** X13: when the parameters of the query and the lines of the archive
    file are 7-bit text, the entries of an answer 200 that have the same
    sort key follow each other as their lines do in the file. *)
Theorem archived_logs_ties_in_file_order cfg q fs logs key :
  ascii_query q = true →
  get_archived_logs cfg q fs = (Logs logs, 200%nat) →
  ∃ name f raw_log_lines,
    arg_pod_name q = Some name
    ∧ OsPath.resolve fs (OsPath.join LOG_DIR (name +:+ ".log")) = Some (File f)
    ∧ readlines f = Some raw_log_lines
    ∧ (ascii_lines raw_log_lines = true →
       filter (λ e, sort_key e = key) logs
       `sublist_of`
       filter (λ e, sort_key e = key)
         (raw_log_lines ≫= process_line name
            (Py.strip (default "" (arg_search_string q)))
            (bool_decide (Py.lower (default "false" (arg_case_sensitive q)) = "true")))).
Proof.
  intros _ (name & tl & f & raw & Hname & _ & _ & Hres & Hraw & ->)%get_archived_logs_ok.
  exists name, f, raw. split; [done|]. split; [done|]. split; [done|]. intros _.
  unfold render_logs.
  etrans; [apply sublist_filter, tail_slice_sublist|]. by rewrite sort_logs_stable.
Qed.

(** X14: when the parameters of the query and the lines of the archive
    file are 7-bit text, every entry of an answer 200 comes from a line of
    the file that is not blank: it has the time stamp and the message parsed
    from that line, the message matches the search string, and it bears the
    pod and the container that the requested name spells.  Without a limit
    the answer holds one entry for each such line. *)
Theorem archived_logs_provenance cfg q fs logs :
  ascii_query q = true →
  get_archived_logs cfg q fs = (Logs logs, 200%nat) →
  ∃ name f raw_log_lines,
    arg_pod_name q = Some name
    ∧ OsPath.resolve fs (OsPath.join LOG_DIR (name +:+ ".log")) = Some (File f)
    ∧ readlines f = Some raw_log_lines
    ∧ (ascii_lines raw_log_lines = true →
       (∀ e, e ∈ logs →
          ∃ line_str, line_str ∈ raw_log_lines
            ∧ Py.strip line_str ≠ ""
            ∧ timestamp e = (parse_log_line line_str).1
            ∧ message e = (parse_log_line line_str).2
            ∧ search_matches (Py.strip (default "" (arg_search_string q)))
                (bool_decide (Py.lower (default "false" (arg_case_sensitive q)) = "true"))
                (message e) = true
            ∧ (pod_name e, container_name e)
              = match Py.split_once "/" name with
                | Some (pod, container) => (pod, Some container)
                | None => (name, None)
                end)
       ∧ (parse_tail_lines (default "0" (arg_tail_lines q)) = inr None →
          logs ≡ₚ raw_log_lines ≫= process_line name
                    (Py.strip (default "" (arg_search_string q)))
                    (bool_decide
                       (Py.lower (default "false" (arg_case_sensitive q)) = "true")))).
Proof.
  intros _ (name & tl & f & raw & Hname & _ & Htl & Hres & Hraw & ->)%get_archived_logs_ok.
  exists name, f, raw. split; [done|]. split; [done|]. split; [done|]. intros _. split.
  - intros e He. unfold render_logs in He.
    apply (λ H, elem_of_sublist _ _ _ H (tail_slice_sublist _ _ _)) in He.
    rewrite sort_logs_perm in He.
    apply list_elem_of_bind in He as (line_str & He & Hline).
    exists line_str. split; [done|]. by eapply process_line_inv.
  - rewrite Htl. intros [= ->]. unfold render_logs, tail_slice. apply sort_logs_perm.
Qed.

Lemma archived_logs_ties_in_file_order_witness :
  ∃ name f raw_log_lines,
    arg_pod_name (Sample.request "web" None) = Some name
    ∧ OsPath.resolve Sample.fs (OsPath.join LOG_DIR (name +:+ ".log")) = Some (File f)
    ∧ readlines f = Some raw_log_lines
    ∧ (ascii_lines raw_log_lines = true →
       filter (λ e, sort_key e = "2021-09-01T12:34:55Z")
         (logs_of (get_archived_logs Sample.cfg (Sample.request "web" None) Sample.fs))
       `sublist_of`
       filter (λ e, sort_key e = "2021-09-01T12:34:55Z")
         (raw_log_lines ≫= process_line name "" false)).
Proof.
  apply (archived_logs_ties_in_file_order Sample.cfg (Sample.request "web" None) Sample.fs);
    vm_compute; reflexivity.
Defined.

Lemma archived_logs_provenance_witness :
  get_archived_logs Sample.cfg (Sample.request "job-42/worker-1" None) Sample.fs
  = (Logs [{| timestamp := None; message := "exit code 1";
              pod_name := "job-42"; container_name := Some "worker-1" |}], 200%nat)
  ∧ ∃ raw_log_lines,
      [{| timestamp := None; message := "exit code 1";
          pod_name := "job-42"; container_name := Some "worker-1" |}]
      ≡ₚ raw_log_lines ≫= process_line "job-42/worker-1" "" false.
Proof.
  assert (get_archived_logs Sample.cfg (Sample.request "job-42/worker-1" None) Sample.fs
          = (Logs [{| timestamp := None; message := "exit code 1";
                      pod_name := "job-42"; container_name := Some "worker-1" |}], 200%nat))
    as Hanswer by (vm_compute; reflexivity).
  split; [exact Hanswer|].
  destruct (archived_logs_provenance Sample.cfg (Sample.request "job-42/worker-1" None)
              Sample.fs _ eq_refl Hanswer) as (name & f & raw & [= <-] & Hres & Hraw & Hall).
  exists raw. apply Hall; [|reflexivity].
  vm_compute in Hres. injection Hres as <-. vm_compute in Hraw. by injection Hraw as <-.
Defined.

(** ** From the listing to the log *)

Section reading_listed.

Lemma archive_files_log_name n comps f :
  (comps, f) ∈ archive_files n →
  ∃ cs c, comps = cs ++ [c] ∧ Py.endswith c ".log" = true.
Proof.
  revert comps. induction n as [g|es IH] using node_ind'; intros comps Hin.
  { by apply elem_of_nil in Hin. }
  cbn [archive_files] in Hin. apply elem_of_app in Hin as [Hin|Hin].
  - apply list_elem_of_omap in Hin as ([name x] & Hx & Hsome). cbn [fst snd] in Hsome.
    destruct x as [g|?]; [|done]. destruct (Py.endswith name ".log") eqn:Hlog; [|done].
    injection Hsome as <- <-. by exists [], name.
  - apply list_elem_of_bind in Hin as ([name x] & Hin & Hx). cbn [fst snd] in Hin.
    apply list_elem_of_fmap in Hin as ([cs g] & [= -> ->] & Hin).
    rewrite Forall_forall in IH.
    destruct (IH (name, x) Hx cs Hin) as (cs' & c & -> & Hlog).
    by exists (name :: cs'), c.
Qed.

Lemma join_snoc_suffix cs c : ∃ prefix, Py.join "/" (cs ++ [c]) = prefix +:+ c.
Proof.
  induction cs as [|a cs [prefix IH]]; [by exists ""|].
  destruct cs as [|b cs].
  - exists (a +:+ "/"). cbn [app Py.join]. by rewrite app_assoc'.
  - exists (a +:+ "/" +:+ prefix).
    change (Py.join "/" ((a :: b :: cs) ++ [c]))
      with (a +:+ "/" +:+ Py.join "/" ((b :: cs) ++ [c])).
    by rewrite IH, !app_assoc'.
Qed.

(** The name of an entry spells the names that lead to it. *)
Lemma entry_name_log comps c :
  Py.endswith c ".log" = true →
  entry_name (comps ++ [c]) +:+ ".log" = Py.join "/" (comps ++ [c]).
Proof.
  intros [stem ->]%endswith_spec. unfold entry_name.
  destruct (join_snoc_suffix comps (stem +:+ ".log")) as [prefix ->].
  by rewrite <-app_assoc', drop_last_log.
Qed.



End reading_listed.





(** X17: the capability endpoint reports purging as allowed exactly when
    the purge endpoint does not refuse with 403, whatever the purge routine
    and the state of the file system. *)
Theorem purge_capability_agrees cfg
    (purge_previous_pod_logs : string → filesystem → result (nat * nat) * filesystem)
    (fs : filesystem) :
  purge_allowed (get_purge_capability cfg) = false
  ↔ (purge_previous_logs cfg purge_previous_pod_logs fs).1.2 = 403%nat.
Proof.
  unfold get_purge_capability, purge_previous_logs. cbn [purge_allowed].
  destruct (RETAIN_ALL_POD_LOGS cfg); cbn [negb andb]; [|done].
  destruct (ALLOW_PREVIOUS_LOG_PURGE cfg); cbn [negb]; [|done].
  destruct (purge_previous_pod_logs LOG_DIR fs) as [[[d e]|e] fs']; cbn; done.
Qed.

(** ** The listing and the statistics *)

Section counting.

Lemma fmap_bind' {A B C} (g : B → C) (h : A → list B) (l : list A) :
  g <$> (l ≫= h) = l ≫= λ x, g <$> h x.
Proof.
  induction l as [|x l IH]; [done|]. by rewrite !bind_cons, fmap_app, IH.
Qed.

Lemma fmap_fst_prod_map {A B C} (g : A → C) (l : list (A * B)) :
  (prod_map g id <$> l).*1 = g <$> l.*1.
Proof. induction l as [|[a b] l IH]; [done|]. cbn. by rewrite IH. Qed.

Lemma fmap_on_fst {A B C} (g : A → C) (l : list (A * B)) :
  (λ e, g e.1) <$> l = g <$> l.*1.
Proof. induction l as [|[a b] l IH]; [done|]. cbn. by rewrite IH. Qed.

Lemma fst_unique (es : list (string * node)) e1 e2 :
  NoDup es.*1 → e1 ∈ es → e2 ∈ es → e1.1 = e2.1 → e1 = e2.
Proof.
  induction es as [|e es IH]; intros Hnd H1 H2 Heq; [by apply elem_of_nil in H1|].
  rewrite fmap_cons in Hnd. apply NoDup_cons in Hnd as [Hfresh Hnd].
  apply elem_of_cons in H1 as [->|H1]; apply elem_of_cons in H2 as [->|H2]; [done| | |auto].
  - exfalso. apply Hfresh. rewrite Heq. by apply list_elem_of_fmap_2.
  - exfalso. apply Hfresh. rewrite <-Heq. by apply list_elem_of_fmap_2.
Qed.

(** In a well-formed tree no entry is met twice. *)
Lemma archive_files_NoDup n : wf_node n = true → NoDup (archive_files n).*1.
Proof.
  induction n as [g|es IH] using node_ind'; intros Hwf; [constructor|].
  cbn [wf_node archive_files] in *.
  apply andb_true_iff in Hwf as [[Hnd%bool_decide_eq_true _]%andb_true_iff Hsub].
  rewrite forallb_forall in Hsub. rewrite fmap_app. apply NoDup_app. split; [|split].
  - clear IH Hsub. induction es as [|[name x] es IHes]; [constructor|].
    rewrite fmap_cons in Hnd. apply NoDup_cons in Hnd as [Hfresh Hnd].
    cbn [omap list_omap fst snd]. specialize (IHes Hnd).
    destruct x as [g|?]; [|done]. destruct (Py.endswith name ".log"); [|done].
    rewrite fmap_cons. apply NoDup_cons. split; [|done].
    intros ([cs g'] & Hcs & Hin)%list_elem_of_fmap. cbn [fst] in Hcs. subst cs.
    apply list_elem_of_omap in Hin as ([name' y] & Hy & Hsome). cbn [fst snd] in Hsome.
    destruct y as [h|?]; [|done]. destruct (Py.endswith name' ".log"); [|done].
    injection Hsome as -> _. apply Hfresh. apply list_elem_of_fmap. by exists (name, File h).
  - intros comps ([cs g] & Hcs & Hin)%list_elem_of_fmap. cbn [fst] in Hcs. subst cs.
    apply list_elem_of_omap in Hin as ([name x] & Hx & Hsome). cbn [fst snd] in Hsome.
    destruct x as [h|?]; [|done]. destruct (Py.endswith name ".log"); [|done].
    injection Hsome as <- _.
    intros ([cs g'] & Hcs & Hin)%list_elem_of_fmap. cbn [fst] in Hcs. subst cs.
    apply list_elem_of_bind in Hin as ([name' y] & Hin & Hy). cbn [fst snd] in Hin.
    apply list_elem_of_fmap in Hin as ([cs h'] & [= -> Hnil _] & Hin).
    apply archive_files_log_name in Hin as (cs' & c & Hcs & _).
    subst cs. by destruct cs'.
  - rewrite fmap_bind'. apply NoDup_bind.
    + intros e1 e2 comps H1 H2 Hc1 Hc2. apply (fst_unique es); [done..|].
      apply list_elem_of_fmap in Hc1 as ([c1 f1] & -> & Hc1).
      apply list_elem_of_fmap in Hc1 as ([c1' f1'] & [= -> ->] & _).
      apply list_elem_of_fmap in Hc2 as ([c2 f2] & Heq & Hc2).
      apply list_elem_of_fmap in Hc2 as ([c2' f2'] & [= -> ->] & _).
      cbn [fst] in Heq. by injection Heq.
    + intros e He. rewrite fmap_fst_prod_map. apply NoDup_fmap_2; [apply _|].
      rewrite Forall_forall in IH. apply (IH e He). apply (Hsub e). by apply list_elem_of_In.
    + by apply NoDup_fmap_1 in Hnd.
Qed.

(** Two entries of a well-formed tree with the same name are the same. *)
Lemma entry_name_inj n c1 f1 c2 f2 :
  wf_node n = true → (c1, f1) ∈ archive_files n → (c2, f2) ∈ archive_files n →
  entry_name c1 = entry_name c2 → c1 = c2.
Proof.
  intros Hwf H1 H2 Heq.
  destruct (archive_files_valid n c1 f1 Hwf H1) as [Hne1 Hv1].
  destruct (archive_files_valid n c2 f2 Hwf H2) as [Hne2 Hv2].
  destruct (archive_files_log_name n c1 f1 H1) as (cs1 & l1 & -> & Hlog1).
  destruct (archive_files_log_name n c2 f2 H2) as (cs2 & l2 & -> & Hlog2).
  assert (Py.join "/" (cs1 ++ [l1]) = Py.join "/" (cs2 ++ [l2])) as Hjoin.
  { by rewrite <-!entry_name_log, Heq by done. }
  assert (∀ comps, comps ≠ [] → Forall (λ c, valid_name c = true) comps →
                   Py.split "/" (Py.join "/" comps) = comps) as Hsplit.
  { intros [|p ps] Hne Hv; [done|]. rewrite join_path_tail.
    apply Forall_cons in Hv as [(_ & _ & _ & Hp)%valid_name_spec Hps].
    by apply split_path_tail. }
  rewrite <-(Hsplit (cs1 ++ [l1])), <-(Hsplit (cs2 ++ [l2])) by done. by rewrite Hjoin.
Qed.

End counting.

(** X18: in a well-formed tree the listing of archived logs holds no name
    twice. *)
Theorem listing_has_no_duplicates cfg v1 fs :
  wf_node fs = true → NoDup (listed (get_archived_pods cfg v1 fs)).
Proof.
  intros Hwf. destruct (RETAIN_ALL_POD_LOGS cfg) eqn:Hretain.
  2:{ unfold get_archived_pods. rewrite Hretain. constructor. }
  rewrite listing_by_entries by done. unfold listed. cbn [fst].
  apply NoDup_filter. unfold archive_entries.
  destruct (OsPath.resolve fs LOG_DIR) as [store|] eqn:Hstore; [|constructor].
  pose proof (resolve_LOG_DIR_wf fs store Hwf Hstore) as Hwfs.
  rewrite fmap_on_fst. apply NoDup_fmap_2_strong; [|by apply archive_files_NoDup].
  intros c1 c2 ([c1' f1] & -> & H1)%list_elem_of_fmap ([c2' f2] & -> & H2)%list_elem_of_fmap.
  by apply (entry_name_inj store _ f1 _ f2).
Qed.

Lemma listing_has_no_duplicates_witness :
  NoDup ["job-42/worker-1"; "job-42/init-setup"].
Proof.
  change ["job-42/worker-1"; "job-42/init-setup"]
    with (listed (ArchivedPods ["job-42/worker-1"; "job-42/init-setup"] None, 200%nat)).
  replace (ArchivedPods ["job-42/worker-1"; "job-42/init-setup"] None, 200%nat)
    with (get_archived_pods Sample.cfg Sample.v1 Sample.fs) by (vm_compute; reflexivity).
  apply listing_has_no_duplicates. vm_compute. reflexivity.
Defined.


